(** * Corrade::Containers::Pointer - a lightweight unique pointer

    A shallow embedding of [src/Corrade/Containers/Pointer.h] and the
    properties of its ownership discipline.

    The class template [Pointer<T>] has one data member, [T* _pointer].
    Its member functions read and write that member and call the
    allocator ([new T{...}] and [delete]).  Both are effects on shared
    state, so the embedding threads an explicit program state through a
    small state monad:

    - the free store, mapping every address ever handed out by [new] to
      the object living there, or to a tombstone once it was deleted;
    - the [Pointer] objects that are currently within their lifetime,
      keyed by object identity, so that two names for the same object
      ([a = std::move(a)]) alias as they do in C++;
    - a log of allocator events, from which deallocations are counted.

    [T] ranges over non-array object types (the class's first
    [static_assert]).  Its constructor is a parameter of the development:
    it runs in the free store of the moment, reads there whatever its
    arguments refer to, and returns a value or exits by an exception. *)

From stdpp Require Import gmap strings list fin_maps.

(** ** Data model *)

(** Addresses in the free store, and identities of [Pointer] objects. *)
Abbreviation loc := positive (only parsing).
Abbreviation hid := nat (only parsing).

(** A value of type [T*]. *)
Inductive ptr : Set :=
  | nullptr
  | addr (l : loc).

#[global] Instance ptr_eq_dec : EqDecision ptr.
Proof. solve_decision. Defined.

(** Contextual conversion of a pointer to [bool], as in [return _pointer;]
    from a function returning [bool], and in [!_pointer]. *)
Definition ptr_to_bool (p : ptr) : bool :=
  match p with
  | nullptr => false
  | addr _ => true
  end.

(** [template<class T> class Pointer { ... T* _pointer; };] *)
Record Pointer : Set := mkPointer { _pointer : ptr }.

#[global] Instance Pointer_eq_dec : EqDecision Pointer.
Proof. solve_decision. Defined.

(** What the free store holds at an address it has handed out. *)
Inductive cell (T : Type) : Type :=
  | Live (v : T)
  | Freed.
Arguments Live {T} v.
Arguments Freed {T}.

(** Allocator events, plus the client's record of a pointer it took out
    of a [Pointer] with [release()]. *)
Inductive event : Set :=
  | EvNew (l : loc)
  | EvDelete (l : loc)
  | EvRelease (l : loc).

#[global] Instance event_eq_dec : EqDecision event.
Proof. solve_decision. Defined.

Record state (T : Type) : Type := mkState {
  heap : gmap positive (cell T);
  objs : gmap nat Pointer;
  trace : list event
}.
Arguments mkState {T} heap objs trace.
Arguments heap {T} s.
Arguments objs {T} s.
Arguments trace {T} s.

(** The state of a program that has not run yet. *)
Definition init (T : Type) : state T := mkState ∅ ∅ [].

(** ** The monad of C++ computations *)

(** A computation returns normally, exits by an exception that leaves
    the program in some state, is halted by the assertion facility with
    its diagnostic, or has no behaviour defined by the language. *)
Inductive outcome (T A : Type) : Type :=
  | Ok (a : A) (s : state T)
  | Throw (s : state T)
  | Abort (message : string)
  | Undefined.
Arguments Ok {T A} a s.
Arguments Throw {T A} s.
Arguments Abort {T A} message.
Arguments Undefined {T A}.

Definition M (T A : Type) : Type := state T → outcome T A.

#[global] Instance M_ret {T} : MRet (M T) := λ A a s, Ok a s.

#[global] Instance M_bind {T} : MBind (M T) := λ A B f m s,
  match m s with
  | Ok a s' => f a s'
  | Throw s' => Throw s'
  | Abort message => Abort message
  | Undefined => Undefined
  end.

Definition abort {T A} (message : string) : M T A := λ _, Abort message.
Definition undefined {T A} : M T A := λ _, Undefined.

(** [try { m; } catch (...) {}]: the program goes on after an exception. *)
Definition catch {T} (m : M T unit) : M T unit := λ s,
  match m s with
  | Throw s' => Ok tt s'
  | r => r
  end.

(** What running a constructor of [T] comes to: an object is
    constructed, or the constructor (or the allocation before it) exits
    by an exception, or it reads an object that is no longer alive. *)
Inductive construction (T : Type) : Type :=
  | Constructed (v : T)
  | Throws
  | ReadsDead.
Arguments Constructed {T} v.
Arguments Throws {T}.
Arguments ReadsDead {T}.

(** ** Objects and the free store *)

Section Memory.
Context {T : Type}.

(** Read the member [_pointer] of the object [this]. *)
Definition load (this : hid) : M T ptr := λ s,
  match objs s !! this with
  | Some o => Ok (_pointer o) s
  | None => Undefined
  end.

(** Assign to the member [_pointer] of the object [this]. *)
Definition store (this : hid) (p : ptr) : M T unit := λ s,
  match objs s !! this with
  | Some _ => Ok tt (mkState (heap s) (<[this := mkPointer p]> (objs s)) (trace s))
  | None => Undefined
  end.

(** Begin the lifetime of the object [this] with the member initializer
    [_pointer{p}]. *)
Definition create (this : hid) (p : ptr) : M T unit := λ s,
  match objs s !! this with
  | Some _ => Undefined
  | None => Ok tt (mkState (heap s) (<[this := mkPointer p]> (objs s)) (trace s))
  end.

(** End the lifetime of the object [this]. *)
Definition destroy (this : hid) : M T unit := λ s,
  match objs s !! this with
  | Some _ => Ok tt (mkState (heap s) (delete this (objs s)) (trace s))
  | None => Undefined
  end.

(** The allocation of [new T{...}], given the constructed value: a fresh
    address, never one handed out before. *)
Definition cpp_new (v : T) : M T ptr := λ s,
  let l := fresh (dom (heap s)) in
  Ok (addr l) (mkState (<[l := Live v]> (heap s)) (objs s) (trace s ++ [EvNew l])).

(** [delete p]: nothing for a null pointer, else the object at [p] is
    destroyed and the deallocation logged. *)
Definition cpp_delete (p : ptr) : M T unit :=
  match p with
  | nullptr => mret tt
  | addr l => λ s,
      Ok tt (mkState (<[l := Freed]> (heap s)) (objs s) (trace s ++ [EvDelete l]))
  end.

(** [*p] *)
Definition deref (p : ptr) : M T loc :=
  match p with
  | nullptr => undefined
  | addr l => mret l
  end.

(** [std::swap(a._pointer, b._pointer)]:
    [tmp = a; a = b; b = tmp] on the members. *)
Definition swap (a b : hid) : M T unit :=
  tmp ← load a;
  vb ← load b;
  store a vb;;
  store b tmp.

(** The value seen through a reference to a [T]. *)
Definition read (l : loc) (s : state T) : option T :=
  match heap s !! l with
  | Some (Live v) => Some v
  | _ => None
  end.
End Memory.

(** ** The assertion facility *)

(** Whether assertions are compiled in. *)
Inductive build : Set :=
  | Checked
  | Unchecked.

(** Modelled from the spec: the macro [CORRADE_ASSERT(condition, message,
    returnValue)] of [Corrade/Utility/Assert.h], which is not among the
    sources.  In a checked build a false condition halts the program with
    the diagnostic; in an unchecked build the macro expands to nothing.
    Its third argument plays no part in either and is left out. *)
Definition CORRADE_ASSERT {T} (mode : build) (condition : bool)
    (message : string) : M T unit :=
  match mode with
  | Checked => if condition then mret tt else abort message
  | Unchecked => mret tt
  end.

(** Translation-time checks: a [static_assert] whose condition is false
    rejects the program with its diagnostic. *)
Inductive translated (A : Type) : Type :=
  | Accepted (a : A)
  | Rejected (diagnostic : string).
Arguments Accepted {A} a.
Arguments Rejected {A} diagnostic.

Definition static_assert {A} (condition : bool) (diagnostic : string)
    (body : A) : translated A :=
  if condition then Accepted body else Rejected diagnostic.

(** ** The class [Pointer<T>] and its helpers *)

Section PointerClass.
Context {T Args : Type}.
(** [T{std::forward<Args>(args)...}]: the arguments are forwarded by
    reference, so the constructor reads them in the free store as it is
    when the constructor runs. *)
Variable construct : Args → gmap positive (cell T) → construction T.
(** [std::is_constructible<T, T*>::value] *)
Variable is_constructible_T_Tptr : bool.
(** [Implementation::IsFirstAPointer<T, Args...>::value] *)
Variable IsFirstAPointer : bool.
Variable mode : build.

(** [new T{std::forward<Args>(args)...}] *)
Definition new_T (args : Args) : M T ptr := λ s,
  match construct args (heap s) with
  | Constructed v => cpp_new v s
  | Throws => Throw s
  | ReadsDead => Undefined
  end.

(** [Pointer(std::nullptr_t = nullptr) noexcept: _pointer{} {}] *)
Definition Pointer_null (this : hid) : M T unit :=
  create this nullptr.

(** [explicit Pointer(T* pointer) noexcept: _pointer{pointer} {}] *)
Definition Pointer_raw (this : hid) (pointer : ptr) : M T unit :=
  create this pointer.

(** [explicit Pointer(InPlaceInitT, Args&&... args):
    _pointer{new T{std::forward<Args>(args)...}} {}] *)
Definition Pointer_inplace (this : hid) (args : Args) : M T unit :=
  p ← new_T args;
  create this p.

(** [Pointer(Pointer<T>&& other) noexcept: _pointer{other._pointer}
    { other._pointer = nullptr; }] *)
Definition Pointer_move (this other : hid) : M T unit :=
  p ← load other;
  create this p;;
  store other nullptr.

(** [Pointer<T>& operator=(Pointer<T>&& other) noexcept]; the returned
    [*this] is the object [this] itself. *)
Definition op_assign (this other : hid) : M T hid :=
  swap this other;;
  mret this.

(** [bool operator==(std::nullptr_t) const { return !_pointer; }] *)
Definition op_eq (this : hid) : M T bool :=
  p ← load this;
  mret (negb (ptr_to_bool p)).

(** [bool operator!=(std::nullptr_t) const { return _pointer; }] *)
Definition op_ne (this : hid) : M T bool :=
  p ← load this;
  mret (ptr_to_bool p).

(** [~Pointer() { delete _pointer; }], after which the lifetime of the
    object is over. *)
Definition Pointer_dtor (this : hid) : M T unit :=
  p ← load this;
  cpp_delete p;;
  destroy this.

(** [explicit operator bool() const { return _pointer; }] *)
Definition op_bool (this : hid) : M T bool :=
  p ← load this;
  mret (ptr_to_bool p).

(** [T* get() { return _pointer; }], and its [const] overload. *)
Definition get (this : hid) : M T ptr :=
  load this.

(** [T* operator->()], and its [const] overload. *)
Definition op_arrow (this : hid) : M T ptr :=
  p ← load this;
  CORRADE_ASSERT mode (ptr_to_bool p) "Containers::Pointer: the pointer is null";;
  mret p.

(** [T& operator*()], and its [const] overload. *)
Definition op_star (this : hid) : M T loc :=
  p ← load this;
  CORRADE_ASSERT mode (ptr_to_bool p) "Containers::Pointer: the pointer is null";;
  deref p.

(** [void reset(T* pointer) { delete _pointer; _pointer = pointer; }] *)
Definition reset (this : hid) (pointer : ptr) : M T unit :=
  p ← load this;
  cpp_delete p;;
  store this pointer.

(** [template<class ...Args> T& emplace(Args&&... args)] *)
Definition emplace (this : hid) (args : Args) : M T loc :=
  p ← load this;
  cpp_delete p;;
  q ← new_T args;
  store this q;;
  r ← load this;
  deref r.

(** [T* release()] *)
Definition release (this : hid) : M T ptr :=
  out ← load this;
  store this nullptr;;
  mret out.

(** [template<class T> bool operator==(std::nullptr_t, const Pointer<T>& b)] *)
Definition nullptr_eq (b : hid) : M T bool :=
  op_eq b.

(** [template<class T> bool operator!=(std::nullptr_t, const Pointer<T>& b)] *)
Definition nullptr_ne (b : hid) : M T bool :=
  op_ne b.

(** [template<class T> inline Pointer<T> pointer(T* pointer)]; the
    returned object is constructed in the caller's storage [result]. *)
Definition pointer (result : hid) (p : ptr) : translated (M T unit) :=
  static_assert (negb is_constructible_T_Tptr)
    "the type is constructible from its own pointer, which is ambiguous -- explicitly use the constructor instead"
    (Pointer_raw result p).

End PointerClass.

(** ** Client programs *)

(** The calls a client makes on [Pointer] objects, besides allocating a
    [T] of its own. *)
Inductive op (Args : Type) : Type :=
  | CallerNew (args : Args)                 (* [new T{args...}] in the client *)
  | ConstructNull (h : hid)                 (* [Pointer<T> h;] *)
  | ConstructRaw (h : hid) (p : ptr)        (* [Pointer<T> h{p};] *)
  | ConstructInPlace (h : hid) (args : Args)(* [Pointer<T> h{InPlaceInit, args...};] *)
  | ConstructMove (h other : hid)           (* [Pointer<T> h{std::move(other)};] *)
  | Assign (h other : hid)                  (* [h = std::move(other);] *)
  | Reset (h : hid) (p : ptr)               (* [h.reset(p);] *)
  | Emplace (h : hid) (args : Args)         (* [h.emplace(args...);] *)
  | Release (h : hid)                       (* [T* p = h.release();] *)
  | Destroy (h : hid).                      (* end of the scope of [h] *)
Arguments CallerNew {Args} args.
Arguments ConstructNull {Args} h.
Arguments ConstructRaw {Args} h p.
Arguments ConstructInPlace {Args} h args.
Arguments ConstructMove {Args} h other.
Arguments Assign {Args} h other.
Arguments Reset {Args} h p.
Arguments Emplace {Args} h args.
Arguments Release {Args} h.
Arguments Destroy {Args} h.

(** The client notes down each pointer it takes out with [release()]. *)
Definition note_release {T} (p : ptr) : M T unit :=
  match p with
  | nullptr => mret tt
  | addr l => λ s, Ok tt (mkState (heap s) (objs s) (trace s ++ [EvRelease l]))
  end.

(** Number of [delete]s of the object at [l] in a log. *)
Definition deallocations (l : loc) (tr : list event) : nat :=
  length (filter (λ e, e = EvDelete l) tr).

(** Some [Pointer] within its lifetime holds the address [l]. *)
Definition owned {T} (s : state T) (l : loc) : Prop :=
  ∃ h, objs s !! h = Some (mkPointer (addr l)).

(** The caller-side precondition on a raw pointer handed to a [Pointer]:
    it is null, or the address of a living object that no [Pointer]
    holds. *)
Definition caller_owns {T} (p : ptr) (s : state T) : bool :=
  match p with
  | nullptr => true
  | addr l =>
      match heap s !! l with
      | Some (Live _) =>
          bool_decide (map_Forall (λ _ o, _pointer o ≠ addr l) (objs s))
      | _ => false
      end
  end.

Section Client.
Context {T Args : Type}.
Variable construct : Args → gmap positive (cell T) → construction T.

(** One call of the client.  A call that can exit by an exception is made
    under a handler, after which the program goes on: with the rest of
    the block, or with the destructors that unwinding runs. *)
Definition exec (o : op Args) : M T unit :=
  match o with
  | CallerNew args => catch (new_T construct args;; mret tt)
  | ConstructNull h => Pointer_null h
  | ConstructRaw h p => Pointer_raw h p
  | ConstructInPlace h args => catch (Pointer_inplace construct h args)
  | ConstructMove h other => Pointer_move h other
  | Assign h other => op_assign h other;; mret tt
  | Reset h p => reset h p
  | Emplace h args => catch (emplace construct h args;; mret tt)
  | Release h => p ← release h; note_release p
  | Destroy h => Pointer_dtor h
  end.

Fixpoint run (os : list (op Args)) : M T unit :=
  match os with
  | [] => mret tt
  | o :: os' => exec o;; run os'
  end.

(** What the caller has to guarantee before a call: a raw pointer it
    hands over is its own to give, and [emplace] on a handle that holds
    an object does not exit by an exception. *)
Definition pre (o : op Args) (s : state T) : bool :=
  match o with
  | ConstructRaw _ p | Reset _ p => caller_owns p s
  | Emplace h args =>
      match objs s !! h with
      | Some (mkPointer (addr _)) =>
          match emplace construct h args s with
          | Throw _ => false
          | _ => true
          end
      | _ => true
      end
  | _ => true
  end.

(** A program is legal from [s] when each call is made with its
    precondition met and has defined behaviour: it is made on objects
    within their lifetime, and no constructor reads an object that is no
    longer alive. *)
Fixpoint legal (os : list (op Args)) (s : state T) : bool :=
  match os with
  | [] => true
  | o :: os' =>
      pre o s &&
      match exec o s with
      | Ok _ s' => legal os' s'
      | _ => false
      end
  end.
End Client.

(** Calls through which no raw pointer enters or leaves the client's
    hands: everything but the client's own [new] and [release()]. *)
Definition handles_only {Args} (o : op Args) : bool :=
  match o with
  | CallerNew _ | Release _ => false
  | _ => true
  end.

(** The ownership invariant of the data model: a [Pointer] holds null or
    a living object, no two [Pointer]s hold the same object, and the
    free store agrees with the log. *)
Record ownership_inv {T} (s : state T) : Prop := {
  inv_live : ∀ h l, objs s !! h = Some (mkPointer (addr l)) →
               ∃ v, heap s !! l = Some (Live v);
  inv_unique : ∀ h1 h2 l, objs s !! h1 = Some (mkPointer (addr l)) →
                 objs s !! h2 = Some (mkPointer (addr l)) → h1 = h2;
  inv_count : ∀ l, deallocations l (trace s) =
                match heap s !! l with Some Freed => 1 | _ => 0 end
}.

(** The deallocation events of [delete p]. *)
Definition delete_events (p : ptr) : list event :=
  match p with
  | nullptr => []
  | addr l => [EvDelete l]
  end.

(** What the client notes down for [release()] returning [p]. *)
Definition release_events (p : ptr) : list event :=
  match p with
  | nullptr => []
  | addr l => [EvRelease l]
  end.

(** The free store after [delete p]. *)
Definition freed {T} (p : ptr) (hp : gmap positive (cell T)) : gmap positive (cell T) :=
  match p with
  | nullptr => hp
  | addr l => <[l := Freed]> hp
  end.

(** The log counts one deallocation for a tombstone, none otherwise. *)
Definition count_ok {T} (hp : gmap positive (cell T)) (tr : list event) : Prop :=
  ∀ l, deallocations l tr = match hp !! l with Some Freed => 1 | _ => 0 end.

(** Handles hold living objects, and no object is held twice. *)
Definition owners_ok {T} (hp : gmap positive (cell T)) (m : gmap nat Pointer) : Prop :=
  (∀ h l, m !! h = Some (mkPointer (addr l)) → ∃ v, hp !! l = Some (Live v)) ∧
  (∀ h1 h2 l, m !! h1 = Some (mkPointer (addr l)) →
     m !! h2 = Some (mkPointer (addr l)) → h1 = h2).

(** ** A concrete instance: [Pointer<int>] *)

(** [int{args}], with the allocation succeeding. *)
Definition construct_int (args : Z) (hp : gmap positive (cell Z)) :
    construction Z :=
  Constructed args.

(** The arguments of the two constructors of a class [Natural] that wraps
    an [int]: [Natural(int)] throws on a negative argument, and the copy
    constructor [Natural(const Natural&)] reads the object referred to. *)
Inductive natural_args : Set :=
  | FromInt (z : Z)
  | CopyOf (l : loc).

Definition construct_natural (args : natural_args)
    (hp : gmap positive (cell Z)) : construction Z :=
  match args with
  | FromInt z => if (z <? 0)%Z then Throws else Constructed z
  | CopyOf l =>
      match hp !! l with
      | Some (Live v) => Constructed v
      | _ => ReadsDead
      end
  end.

(** [Pointer<Natural> a{InPlaceInit, 42}; a.emplace(-1);], the exception
    caught, and [a] goes out of scope. *)
Definition failing_emplace : list (op natural_args) :=
  [ConstructInPlace 0 (FromInt 42); Emplace 0 (FromInt (-1)); Destroy 0].

(** One [Pointer<int>], object 0, holding a living [int] of value 42. *)
Definition one_owner : state Z :=
  mkState {[1%positive := Live 42%Z]} {[0 := mkPointer (addr 1)]} [EvNew 1%positive].

(** Two [Pointer<int>]s: object 0 holds 42, object 1 holds 7. *)
Definition two_owners : state Z :=
  mkState (<[2%positive := Live 7%Z]> {[1%positive := Live 42%Z]})
          (<[1 := mkPointer (addr 2)]> {[0 := mkPointer (addr 1)]})
          [EvNew 1%positive; EvNew 2%positive].

(** One [Pointer<int>], object 0, holding 42, and an [int] of value 7 that
    the client allocated and still owns. *)
Definition owner_and_raw : state Z :=
  mkState (<[2%positive := Live 7%Z]> {[1%positive := Live 42%Z]})
          {[0 := mkPointer (addr 1)]}
          [EvNew 1%positive; EvNew 2%positive].

(** An empty [Pointer<int>], object 0, and an [int] of value 42 that the
    client allocated and still owns. *)
Definition empty_and_raw : state Z :=
  mkState {[1%positive := Live 42%Z]} {[0 := mkPointer nullptr]}
          [EvNew 1%positive].

(** Two [Pointer<int>]s: object 0 holds 42, object 1 is empty. *)
Definition owner_and_empty : state Z :=
  mkState {[1%positive := Live 42%Z]}
          (<[1 := mkPointer nullptr]> {[0 := mkPointer (addr 1)]})
          [EvNew 1%positive].

(** [Pointer<int> a{InPlaceInit, 42}; Pointer<int> b{std::move(a)};
    b.emplace(7); Pointer<int> c; c = std::move(b); c.reset(nullptr);] and
    all three go out of scope. *)
Definition through_handles : list (op Z) :=
  [ConstructInPlace 0 42%Z; ConstructMove 1 0; Emplace 1 7%Z;
   ConstructNull 2; Assign 2 1; Reset 2 nullptr;
   Destroy 2; Destroy 1; Destroy 0].

(** [int* p = new int{42}; Pointer<int> a{p}; Pointer<int> b{p};] and both
    go out of scope. *)
Definition adopt_twice : list (op Z) :=
  [CallerNew 42%Z; ConstructRaw 0 (addr 1); ConstructRaw 1 (addr 1);
   Destroy 0; Destroy 1].

(** [int* p = new int{42}; Pointer<int> a{p}; a.reset(p);] and [a] goes out
    of scope. *)
Definition reset_to_self : list (op Z) :=
  [CallerNew 42%Z; ConstructRaw 0 (addr 1); Reset 0 (addr 1); Destroy 0].

(** [Pointer<int> a{InPlaceInit, 42}; Pointer<int> b{std::move(a)};
    b.reset(new int{7}); Pointer<int> c; c = std::move(b);] and all three
    go out of scope. *)
Definition scenario : list (op Z) :=
  [ConstructInPlace 0 42%Z; ConstructMove 1 0; CallerNew 7%Z;
   Reset 1 (addr 2); ConstructNull 2; Assign 2 1].

Definition scenario_end : list (op Z) :=
  [Destroy 2; Destroy 1; Destroy 0].

(** ** Properties of the member functions *)

Ltac unfold_members :=
  unfold nullptr_eq, nullptr_ne;
  unfold Pointer_null, Pointer_raw, Pointer_inplace, Pointer_move, op_assign,
    op_eq, op_ne, Pointer_dtor, op_bool, get, op_arrow, op_star, reset,
    emplace, release, swap, CORRADE_ASSERT, deref, note_release, abort,
    undefined;
  unfold mbind, M_bind, mret, M_ret.

Ltac step_members :=
  repeat (unfold load, store, create, destroy, cpp_delete, cpp_new; simpl;
          rewrite ?lookup_insert_eq, ?lookup_delete_eq;
          rewrite ?lookup_insert_ne, ?lookup_delete_ne by done).

Section Members.
Context {T Args : Type}.
Variable construct : Args → gmap positive (cell T) → construction T.
Variable mode : build.
Implicit Types (s : state T) (h : nat) (p : ptr) (l : positive).

Lemma state_eta s : mkState (heap s) (objs s) (trace s) = s.
Proof. by destruct s. Qed.

(** C2: move construction hands the referent of the source to the new
    handle and empties the source; the free store and the allocator log
    are untouched, and destroying the source afterwards deletes nothing
    and leaves the new handle's referent alone. *)
Theorem move_construct_transfers s h1 h2 p :
  objs s !! h1 = Some (mkPointer p) →
  objs s !! h2 = None →
  ∃ s', Pointer_move h2 h1 s = Ok tt s' ∧
    objs s' !! h2 = Some (mkPointer p) ∧
    objs s' !! h1 = Some (mkPointer nullptr) ∧
    (∀ h, h ≠ h1 → h ≠ h2 → objs s' !! h = objs s !! h) ∧
    heap s' = heap s ∧ trace s' = trace s ∧
    ∃ s'', Pointer_dtor h1 s' = Ok tt s'' ∧
      objs s'' !! h2 = Some (mkPointer p) ∧
      objs s'' !! h1 = None ∧
      heap s'' = heap s ∧ trace s'' = trace s.
Proof.
  intros H1 H2.
  assert (h2 ≠ h1) as Hne by congruence.
  eexists. split.
  { unfold_members. unfold load. rewrite H1. simpl.
    unfold create. rewrite H2. simpl. unfold store. simpl.
    rewrite lookup_insert_ne by done. rewrite H1. reflexivity. }
  simpl. rewrite lookup_insert_eq.
  rewrite lookup_insert_ne, lookup_insert_eq by done.
  repeat split; try done.
  - intros h Hh1 Hh2. by rewrite !lookup_insert_ne.
  - eexists. split.
    { unfold_members. unfold load. simpl. rewrite lookup_insert_eq. simpl.
      unfold destroy. simpl. rewrite lookup_insert_eq. reflexivity. }
    simpl. rewrite lookup_delete_eq.
    rewrite lookup_delete_ne, lookup_insert_ne, lookup_insert_eq by done.
    done.
Qed.

(** C3: move assignment swaps the two handles' referents, touching
    neither the free store nor the allocator log; what the destination
    held is deleted when the source is destroyed. *)
Theorem move_assign_swaps s dst src pd ps :
  objs s !! dst = Some (mkPointer pd) →
  objs s !! src = Some (mkPointer ps) →
  ∃ s', op_assign dst src s = Ok dst s' ∧
    objs s' !! dst = Some (mkPointer ps) ∧
    objs s' !! src = Some (mkPointer pd) ∧
    (∀ h, h ≠ dst → h ≠ src → objs s' !! h = objs s !! h) ∧
    heap s' = heap s ∧ trace s' = trace s ∧
    ∃ s'', Pointer_dtor src s' = Ok tt s'' ∧
      trace s'' = trace s ++ delete_events pd ∧
      objs s'' !! src = None ∧
      (∀ l, pd = addr l → heap s'' !! l = Some Freed) ∧
      (∀ l, pd ≠ addr l → heap s'' !! l = heap s !! l).
Proof.
  intros Hd Hs.
  eexists. split.
  { unfold_members. unfold load. rewrite Hd, Hs. simpl.
    unfold store. rewrite Hd. simpl.
    rewrite lookup_insert. case_decide; [|rewrite Hs]; reflexivity. }
  simpl. rewrite lookup_insert_eq.
  assert (<[src:=mkPointer pd]> (<[dst:=mkPointer ps]> (objs s)) !! dst
          = Some (mkPointer ps)) as Hdst.
  { destruct (decide (src = dst)) as [->|Hne].
    - rewrite lookup_insert_eq. congruence.
    - by rewrite lookup_insert_ne, lookup_insert_eq. }
  repeat split; try done.
  - intros h Hh1 Hh2. by rewrite !lookup_insert_ne.
  - clear Hdst Hd Hs. destruct pd as [|l0]; (eexists; split;
      [ unfold_members; unfold load; simpl; rewrite lookup_insert_eq; simpl;
        unfold destroy; simpl; rewrite lookup_insert_eq; reflexivity
      | simpl; rewrite lookup_delete_eq ]).
    + rewrite app_nil_r. repeat split; done.
    + repeat split; try done.
      * intros l [= <-]. by rewrite lookup_insert_eq.
      * intros l Hl. rewrite lookup_insert_ne; [done|congruence].
Qed.

(** C10: assigning a handle to itself by move changes nothing at all:
    the whole program state, and with it the referent and the allocator
    log, is what it was. *)
Theorem self_move_assign_noop s h p :
  objs s !! h = Some (mkPointer p) →
  op_assign h h s = Ok h s.
Proof.
  intros H. unfold_members. unfold load. rewrite H. simpl. rewrite H. simpl.
  unfold store. rewrite H. simpl. rewrite lookup_insert_eq.
  rewrite insert_insert_eq, insert_id by done.
  by rewrite state_eta.
Qed.

(** C4: a default-constructed handle is empty and constructing it calls
    no allocator; on it [get()] and [release()] return null and leave
    it empty, it equals the null marker from either side, and it
    converts to [false]. *)
Theorem default_constructed_is_empty s h :
  objs s !! h = None →
  ∃ s', Pointer_null h s = Ok tt s' ∧
    objs s' !! h = Some (mkPointer nullptr) ∧
    heap s' = heap s ∧ trace s' = trace s ∧
    get h s' = Ok nullptr s' ∧
    release h s' = Ok nullptr s' ∧
    op_eq h s' = Ok true s' ∧
    nullptr_eq h s' = Ok true s' ∧
    op_ne h s' = Ok false s' ∧
    op_bool h s' = Ok false s'.
Proof.
  intros H. eexists. split.
  { unfold_members. unfold create. rewrite H. reflexivity. }
  simpl. rewrite lookup_insert_eq.
  repeat split; unfold_members; step_members; try reflexivity.
  by rewrite insert_insert_eq.
Qed.

(** C8: the observers of emptiness agree with one another and are
    functions of whether the stored pointer is null, nothing else:
    [== nullptr] holds exactly of the empty handle, [!= nullptr] and the
    conversion to [bool] are its negation, and the free functions with
    the null marker on the left return what the members return.  None
    changes the state. *)
Theorem emptiness_observers_coherent s h p :
  objs s !! h = Some (mkPointer p) →
  op_eq h s = Ok (bool_decide (p = nullptr)) s ∧
  op_ne h s = Ok (negb (bool_decide (p = nullptr))) s ∧
  op_bool h s = Ok (negb (bool_decide (p = nullptr))) s ∧
  nullptr_eq h s = op_eq h s ∧
  nullptr_ne h s = op_ne h s.
Proof.
  intros H. unfold_members. unfold load. rewrite H. simpl.
  by destruct p.
Qed.
(** C5, amended: [reset(newRef)] always returns; it deletes the current
    referent when there is one and nothing else, and the handle then holds
    exactly [newRef].  Every object other than the old referent is left
    as it was, so [newRef] stays valid provided it is not the very
    referent the handle held. *)
Theorem reset_replaces s h p newRef :
  objs s !! h = Some (mkPointer p) →
  ∃ s', reset h newRef s = Ok tt s' ∧
    trace s' = trace s ++ delete_events p ∧
    objs s' = <[h := mkPointer newRef]> (objs s) ∧
    (∀ l, p = addr l → heap s' !! l = Some Freed) ∧
    (∀ l, p ≠ addr l → heap s' !! l = heap s !! l) ∧
    (∀ l, newRef = addr l → newRef ≠ p → heap s' !! l = heap s !! l).
Proof.
  intros H. destruct p as [|l0]; (eexists; split;
    [ unfold_members; unfold load; rewrite H; simpl;
      unfold store; simpl; rewrite H; reflexivity | simpl ]).
  - rewrite app_nil_r. repeat split; done.
  - repeat split; try done.
    + intros l [= <-]. by rewrite lookup_insert_eq.
    + intros l Hl. rewrite lookup_insert_ne; [done|congruence].
    + intros l -> Hl. rewrite lookup_insert_ne; [done|congruence].
Qed.

(** C6, amended: [emplace(args...)] first deletes the current referent
    when there is one, then constructs the new object from [args].
    Provided that construction, which runs in the free store as the
    deletion left it, returns a value (it neither exits by an exception
    nor reads the object just deleted), a new object with that value is
    allocated at an address never used before, the handle holds that
    address, and the returned reference is to that object: read through
    it, or through the handle's [operator*], the value is the one
    constructed. *)
Theorem emplace_replaces s h p args v :
  objs s !! h = Some (mkPointer p) →
  construct args (freed p (heap s)) = Constructed v →
  ∃ l s', emplace construct h args s = Ok l s' ∧
    trace s' = trace s ++ delete_events p ++ [EvNew l] ∧
    heap s !! l = None ∧
    objs s' = <[h := mkPointer (addr l)]> (objs s) ∧
    read l s' = Some v ∧
    op_star mode h s' = Ok l s' ∧
    (∀ l', op_star mode h s' = Ok l' s' → read l' s' = read l s') ∧
    (∀ l0, p = addr l0 → heap s' !! l0 = Some Freed) ∧
    (∀ l', p ≠ addr l' → l' ≠ l → heap s' !! l' = heap s !! l').
Proof.
  intros H Hc.
  assert (∀ hp' tr', emplace construct h args s =
            Ok (fresh (dom (freed p (heap s))))
               (mkState hp' (<[h:=mkPointer (addr (fresh (dom (freed p (heap s)))))]> (objs s)) tr') →
          ∀ l', op_star mode h
              (mkState hp' (<[h:=mkPointer (addr (fresh (dom (freed p (heap s)))))]> (objs s)) tr') =
            Ok l' (mkState hp' (<[h:=mkPointer (addr (fresh (dom (freed p (heap s)))))]> (objs s)) tr')
          ↔ l' = fresh (dom (freed p (heap s)))) as Hstar.
  { intros hp' tr' _ l'. unfold_members. unfold load. simpl.
    rewrite lookup_insert_eq. simpl. destruct mode; simpl; split; congruence. }
  assert (heap s !! fresh (dom (freed p (heap s))) = None ∧
          ∀ l0, p = addr l0 → fresh (dom (freed p (heap s))) ≠ l0)
    as [Hfresh Hne].
  { pose proof (is_fresh (dom (freed p (heap s)))) as Hf.
    rewrite elem_of_dom in Hf. destruct p as [|l1]; simpl in *.
    - split; [|done]. by apply eq_None_not_Some.
    - split.
      + apply eq_None_not_Some. intros Hs. apply Hf.
        rewrite lookup_insert. case_decide; [by eexists|done].
      + intros l0 [= <-] Heq. apply Hf. rewrite Heq, lookup_insert_eq.
        by eexists. }
  assert (emplace construct h args s =
    Ok (fresh (dom (freed p (heap s))))
       (mkState (<[fresh (dom (freed p (heap s))) := Live v]> (freed p (heap s)))
          (<[h:=mkPointer (addr (fresh (dom (freed p (heap s)))))]> (objs s))
          ((trace s ++ delete_events p) ++ [EvNew (fresh (dom (freed p (heap s))))])))
    as Hrun.
  { unfold emplace, mbind, M_bind, load. rewrite H.
    destruct p as [|l0]; simpl in *; unfold mret, M_ret, new_T; simpl;
      rewrite Hc; unfold cpp_new, store; simpl; rewrite H; simpl;
      rewrite lookup_insert_eq; simpl; rewrite ?app_nil_r; reflexivity. }
  eexists. eexists. split; [exact Hrun|]. simpl.
  pose proof (Hstar _ _ Hrun) as Hs.
  repeat split; try done.
  - by rewrite <- app_assoc.
  - unfold read. simpl. by rewrite lookup_insert_eq.
  - by apply Hs.
  - intros l' Hl'. apply Hs in Hl'. by subst.
  - intros l0 ->. rewrite lookup_insert_ne by (by apply Hne).
    simpl. by rewrite lookup_insert_eq.
  - intros l' Hl' Hl. rewrite lookup_insert_ne by done.
    destruct p as [|l0]; simpl; [done|].
    rewrite lookup_insert_ne; [done|congruence].
Qed.

(** C7: on a non-empty handle [operator->] and [operator*] return the
    stored pointer and the referent and leave the program state as it
    was, whatever the build.  On an empty handle a checked build halts
    in the assertion facility with the diagnostic
    "Containers::Pointer: the pointer is null"; no dereference of a
    non-empty handle ever halts there. *)
Theorem dereference_checked s h p :
  objs s !! h = Some (mkPointer p) →
  (∀ l, p = addr l →
     op_arrow mode h s = Ok (addr l) s ∧ op_star mode h s = Ok l s) ∧
  (p = nullptr →
     op_arrow (T:=T) Checked h s = Abort "Containers::Pointer: the pointer is null" ∧
     op_star (T:=T) Checked h s = Abort "Containers::Pointer: the pointer is null") ∧
  (∀ message, op_arrow mode h s = Abort message ∨ op_star mode h s = Abort message →
     p = nullptr ∧ mode = Checked ∧
     message = "Containers::Pointer: the pointer is null"%string).
Proof.
  intros H. unfold_members. unfold load. rewrite H. simpl.
  repeat split.
  - subst p. by destruct mode.
  - subst p. by destruct mode.
  - by subst p.
  - by subst p.
  - destruct p, mode; simpl in *; by destruct H0.
  - destruct p, mode; simpl in *; by destruct H0.
  - destruct p, mode; simpl in *; destruct H0; congruence.
Qed.

(** C9: for a [T] that is not constructible from [T*] the helper
    [pointer(p)] is accepted and is the raw-pointer constructor: from
    every state both have the same outcome, a handle holding exactly
    [p] next to an unchanged free store and allocator log. *)
Theorem pointer_helper_is_raw_constructor
    (is_constructible_T_Tptr : bool) (result : nat) p :
  is_constructible_T_Tptr = false →
  ∃ m : M T unit, pointer is_constructible_T_Tptr result p = Accepted m ∧
    ∀ s, m s = Pointer_raw result p s ∧
      (objs s !! result = None →
         m s = Ok tt (mkState (heap s) (<[result := mkPointer p]> (objs s))
                        (trace s))).
Proof.
  intros ->. eexists. split; [reflexivity|].
  intros s. split; [reflexivity|].
  intros H. unfold_members. unfold create. by rewrite H.
Qed.
End Members.

(** ** The ownership discipline over whole programs *)

Section Ownership.
Context {T Args : Type}.
Variable construct : Args → gmap positive (cell T) → construction T.
Implicit Types (s : state T) (h : nat) (p : ptr) (l : positive).
Implicit Types (hp : gmap positive (cell T)) (m : gmap nat Pointer).
Implicit Types (tr : list event) (o : op Args) (os : list (op Args)).

Lemma inv_split s :
  ownership_inv s ↔ owners_ok (heap s) (objs s) ∧ count_ok (heap s) (trace s).
Proof.
  split.
  - intros [H1 H2 H3]. by repeat split.
  - intros [[H1 H2] H3]. by split.
Qed.

Lemma cpp_delete_eq p s :
  cpp_delete p s =
  Ok tt (mkState (freed p (heap s)) (objs s) (trace s ++ delete_events p)).
Proof.
  destruct p; simpl; [|done].
  unfold mret, M_ret. by rewrite app_nil_r, state_eta.
Qed.

Lemma lookup_freed p hp l :
  freed p hp !! l = if decide (p = addr l) then Some Freed else hp !! l.
Proof.
  unfold freed. destruct p as [|l0].
  - case_decide; [congruence|done].
  - rewrite lookup_insert. repeat case_decide; congruence.
Qed.

Lemma deallocations_app l tr1 tr2 :
  deallocations l (tr1 ++ tr2) = deallocations l tr1 + deallocations l tr2.
Proof. unfold deallocations. by rewrite filter_app, length_app. Qed.

Lemma deallocations_delete_events l p :
  deallocations l (delete_events p) = if decide (p = addr l) then 1 else 0.
Proof.
  unfold delete_events, deallocations. destruct p as [|l0].
  - case_decide; [congruence|done].
  - rewrite filter_cons, filter_nil.
    repeat case_decide; simpl; congruence.
Qed.

Lemma deallocations_new l l' : deallocations l [EvNew l'] = 0.
Proof. done. Qed.

Lemma deallocations_release l l' : deallocations l [EvRelease l'] = 0.
Proof. done. Qed.

(** *** The log and the free store *)

Lemma count_ok_delete hp tr p :
  count_ok hp tr →
  (∀ l, p = addr l → ∃ v, hp !! l = Some (Live v)) →
  count_ok (freed p hp) (tr ++ delete_events p).
Proof.
  intros Hc Hp l.
  rewrite deallocations_app, deallocations_delete_events, lookup_freed, Hc.
  case_decide as Hd.
  - destruct (Hp l Hd) as [v ->]. done.
  - destruct (hp !! l) as [[]|]; lia.
Qed.

Lemma count_ok_new hp tr l v :
  count_ok hp tr → hp !! l = None →
  count_ok (<[l := Live v]> hp) (tr ++ [EvNew l]).
Proof.
  intros Hc Hl l'. rewrite deallocations_app, deallocations_new, Hc.
  rewrite lookup_insert. case_decide as Hd.
  - subst l'. rewrite Hl. done.
  - destruct (hp !! l') as [[]|]; lia.
Qed.

Lemma count_ok_release hp tr l :
  count_ok hp tr → count_ok hp (tr ++ [EvRelease l]).
Proof.
  intros Hc l'. rewrite deallocations_app, deallocations_release, Hc. lia.
Qed.

(** *** The handles and the free store *)

Lemma owners_ok_set_null hp m h :
  owners_ok hp m → owners_ok hp (<[h := mkPointer nullptr]> m).
Proof.
  intros [Hl Hu]. split.
  - intros h' l. rewrite lookup_insert. case_decide; [done|]. apply Hl.
  - intros h1 h2 l. rewrite !lookup_insert. repeat case_decide; try done.
    apply Hu.
Qed.

Lemma owners_ok_end hp m h :
  owners_ok hp m → owners_ok hp (delete h m).
Proof.
  intros [Hl Hu]. split.
  - intros h' l. rewrite lookup_delete. case_decide; [done|]. apply Hl.
  - intros h1 h2 l. rewrite !lookup_delete. repeat case_decide; try done.
    apply Hu.
Qed.

Lemma owners_ok_adopt hp m h p :
  owners_ok hp m →
  (∀ l, p = addr l →
     (∃ v, hp !! l = Some (Live v)) ∧
     ∀ h', h' ≠ h → m !! h' ≠ Some (mkPointer (addr l))) →
  owners_ok hp (<[h := mkPointer p]> m).
Proof.
  intros [Hl Hu] Hp. split.
  - intros h' l. rewrite lookup_insert. case_decide.
    + intros [= ->]. by apply Hp.
    + apply Hl.
  - intros h1 h2 l. rewrite !lookup_insert. repeat case_decide; subst.
    + done.
    + intros [= ->] H2. by destruct (proj2 (Hp l eq_refl) h2).
    + intros H1 [= ->]. by destruct (proj2 (Hp l eq_refl) h1).
    + apply Hu.
Qed.

Lemma owners_ok_freed hp m p :
  owners_ok hp m →
  (∀ h l, p = addr l → m !! h ≠ Some (mkPointer (addr l))) →
  owners_ok (freed p hp) m.
Proof.
  intros [Hl Hu] Hp. split; [|done].
  intros h l Hh. rewrite lookup_freed. case_decide as Hd.
  - by destruct (Hp h l Hd).
  - by apply (Hl h).
Qed.

Lemma owners_ok_alloc hp m l v :
  owners_ok hp m → hp !! l = None →
  owners_ok (<[l := Live v]> hp) m.
Proof.
  intros [Hl Hu] Hnone. split; [|done].
  intros h l' Hh. destruct (Hl h l' Hh) as [v' Hv'].
  rewrite lookup_insert_ne; [eauto|congruence].
Qed.

Lemma owners_ok_swap hp m a b pa pb :
  owners_ok hp m →
  m !! a = Some (mkPointer pa) → m !! b = Some (mkPointer pb) →
  owners_ok hp (<[b := mkPointer pa]> (<[a := mkPointer pb]> m)).
Proof.
  intros [Hl Hu] Ha Hb.
  assert (∀ h l,
    <[b := mkPointer pa]> (<[a := mkPointer pb]> m) !! h = Some (mkPointer (addr l)) →
    ∃ h0, m !! h0 = Some (mkPointer (addr l)) ∧
      (h = b ∧ h0 = a ∨ h ≠ b ∧ h = a ∧ h0 = b ∨ h ≠ b ∧ h ≠ a ∧ h0 = h)) as Hback.
  { intros h l. rewrite !lookup_insert.
    destruct (decide (b = h)) as [Eb|Eb]; [|destruct (decide (a = h)) as [Ea|Ea]].
    - intros [= Hpa]. exists a. split; [congruence|]. left. done.
    - intros [= Hpb]. exists b. split; [congruence|]. right. left. done.
    - intros Hh. exists h. split; [done|]. right. right. done. }
  split.
  - intros h l Hh. destruct (Hback h l Hh) as (h0 & Hh0 & _). by apply (Hl h0).
  - intros h1 h2 l Hh1 Hh2.
    destruct (Hback h1 l Hh1) as (h01 & Hm1 & Hc1).
    destruct (Hback h2 l Hh2) as (h02 & Hm2 & Hc2).
    pose proof (Hu h01 h02 l Hm1 Hm2) as Heq.
    destruct Hc1 as [[? ?]|[(?&?&?)|(?&?&?)]],
             Hc2 as [[? ?]|[(?&?&?)|(?&?&?)]]; congruence.
Qed.
(** *** What each call does to the program state *)

Lemma note_release_eq p s :
  note_release p s =
  Ok tt (mkState (heap s) (objs s) (trace s ++ release_events p)).
Proof.
  destruct p; simpl; [|done].
  unfold mret, M_ret. by rewrite app_nil_r, state_eta.
Qed.

Ltac invert_exec H :=
  unfold exec, catch, Pointer_null, Pointer_raw, Pointer_inplace,
    Pointer_move, op_assign, Pointer_dtor, reset, emplace, release, swap,
    deref in H;
  unfold mbind, M_bind, mret, M_ret in H;
  unfold load, store, create, destroy, new_T, cpp_new in H;
  repeat first
    [ discriminate H
    | progress (cbn beta iota delta [objs heap trace _pointer] in H)
    | rewrite cpp_delete_eq in H
    | rewrite note_release_eq in H
    | rewrite lookup_insert_eq in H
    | match type of H with
      | context [lookup ?h (objs ?s)] =>
          is_var s; destruct (objs s !! h) as [[?]|] eqn:?
      end
    | match type of H with
      | context [construct ?a ?hp] => destruct (construct a hp) eqn:?
      end
    | match type of H with
      | context [lookup ?b (insert ?a _ _)] =>
          rewrite lookup_insert in H; destruct (decide (a = b))
      end ].

(** [emplace] when the construction exits by an exception: the old
    referent is deleted already and the handle still holds its address. *)
Lemma emplace_exception_path s h p args :
  objs s !! h = Some (mkPointer p) →
  construct args (freed p (heap s)) = Throws →
  emplace construct h args s =
    Throw (mkState (freed p (heap s)) (objs s) (trace s ++ delete_events p)).
Proof.
  intros H Hc. unfold emplace, mbind, M_bind, load. rewrite H.
  cbn beta iota delta [_pointer]. rewrite cpp_delete_eq.
  unfold new_T. cbn beta iota delta [heap]. by rewrite Hc.
Qed.

Lemma exec_post o s s' :
  exec construct o s = Ok tt s' →
  match o with
  | CallerNew args =>
      match construct args (heap s) with
      | Constructed v =>
          let l := fresh (dom (heap s)) in
          s' = mkState (<[l := Live v]> (heap s)) (objs s)
                 (trace s ++ [EvNew l])
      | Throws => s' = s
      | ReadsDead => False
      end
  | ConstructNull h =>
      objs s !! h = None ∧
      s' = mkState (heap s) (<[h := mkPointer nullptr]> (objs s)) (trace s)
  | ConstructRaw h p =>
      objs s !! h = None ∧
      s' = mkState (heap s) (<[h := mkPointer p]> (objs s)) (trace s)
  | ConstructInPlace h args =>
      match construct args (heap s) with
      | Constructed v =>
          let l := fresh (dom (heap s)) in
          objs s !! h = None ∧
          s' = mkState (<[l := Live v]> (heap s))
                 (<[h := mkPointer (addr l)]> (objs s)) (trace s ++ [EvNew l])
      | Throws => s' = s
      | ReadsDead => False
      end
  | ConstructMove h other =>
      ∃ p, objs s !! other = Some (mkPointer p) ∧ objs s !! h = None ∧
        s' = mkState (heap s)
               (<[other := mkPointer nullptr]> (<[h := mkPointer p]> (objs s)))
               (trace s)
  | Assign h other =>
      ∃ pd ps, objs s !! h = Some (mkPointer pd) ∧
        objs s !! other = Some (mkPointer ps) ∧
        s' = mkState (heap s)
               (<[other := mkPointer pd]> (<[h := mkPointer ps]> (objs s)))
               (trace s)
  | Reset h pn =>
      ∃ p, objs s !! h = Some (mkPointer p) ∧
        s' = mkState (freed p (heap s)) (<[h := mkPointer pn]> (objs s))
               (trace s ++ delete_events p)
  | Emplace h args =>
      ∃ p, objs s !! h = Some (mkPointer p) ∧
        match construct args (freed p (heap s)) with
        | Constructed v =>
            let l := fresh (dom (freed p (heap s))) in
            s' = mkState (<[l := Live v]> (freed p (heap s)))
                   (<[h := mkPointer (addr l)]> (objs s))
                   ((trace s ++ delete_events p) ++ [EvNew l])
        | Throws =>
            s' = mkState (freed p (heap s)) (objs s)
                   (trace s ++ delete_events p)
        | ReadsDead => False
        end
  | Release h =>
      ∃ p, objs s !! h = Some (mkPointer p) ∧
        s' = mkState (heap s) (<[h := mkPointer nullptr]> (objs s))
               (trace s ++ release_events p)
  | Destroy h =>
      ∃ p, objs s !! h = Some (mkPointer p) ∧
        s' = mkState (freed p (heap s)) (delete h (objs s))
               (trace s ++ delete_events p)
  end.
Proof.
  intros H. destruct o; invert_exec H.
  all: try (injection H as <-).
  all: try (eexists; split; [reflexivity|]).
  all: repeat match goal with
         | E : construct _ _ = _ |- _ => rewrite E; clear E
         end.
  all: simplify_eq; eauto 10.
Qed.

Lemma caller_owns_spec p s l :
  caller_owns p s = true → p = addr l →
  (∃ v, heap s !! l = Some (Live v)) ∧
  ∀ h, objs s !! h ≠ Some (mkPointer (addr l)).
Proof.
  intros Hc ->. unfold caller_owns in Hc.
  destruct (heap s !! l) as [[v|]|]; try done.
  apply bool_decide_eq_true in Hc. split; [eauto|].
  intros h Hh. by apply (map_Forall_lookup_1 _ _ _ _ Hc Hh).
Qed.

Lemma count_ok_release_events hp tr p :
  count_ok hp tr → count_ok hp (tr ++ release_events p).
Proof.
  destruct p; simpl.
  - by rewrite app_nil_r.
  - apply count_ok_release.
Qed.

Lemma owners_ok_delete_owned hp m m' h p :
  owners_ok hp m → owners_ok hp m' →
  m !! h = Some (mkPointer p) →
  (∀ h', h' ≠ h → m' !! h' = m !! h') →
  (∀ l, m' !! h ≠ Some (mkPointer (addr l))) →
  owners_ok (freed p hp) m'.
Proof.
  intros [_ Hu] Hok Hh Hsame Hgone. apply owners_ok_freed; [done|].
  intros h' l -> Hh'. destruct (decide (h' = h)) as [->|Hne].
  - by apply (Hgone l).
  - rewrite Hsame in Hh' by done. by apply Hne, (Hu h' h l).
Qed.

Lemma fresh_not_held hp m :
  owners_ok hp m →
  ∀ h, m !! h ≠ Some (mkPointer (addr (fresh (dom hp)))).
Proof.
  intros [Hl _] h Hh. destruct (Hl h _ Hh) as [v Hv].
  apply (is_fresh (dom hp)), elem_of_dom. eauto.
Qed.

Lemma lookup_fresh hp : hp !! fresh (dom hp) = None.
Proof. apply not_elem_of_dom, is_fresh. Qed.

(** *** Every legal call keeps the ownership invariant *)

Lemma exec_preserves_inv o s s' :
  ownership_inv s → pre construct o s = true →
  exec construct o s = Ok tt s' →
  ownership_inv s'.
Proof.
  intros Hinv Hpre Hexec. apply exec_post in Hexec.
  apply inv_split in Hinv as [Ho Hc]. apply inv_split.
  destruct o; simpl in Hexec, Hpre.
  - (* CallerNew *)
    destruct (construct args (heap s)) as [v| |]; [|by subst|done].
    subst s'; simpl. split.
    + apply owners_ok_alloc; [done|apply lookup_fresh].
    + apply count_ok_new; [done|apply lookup_fresh].
  - (* ConstructNull *)
    destruct Hexec as [_ ->]; simpl. split; [|done].
    by apply owners_ok_set_null.
  - (* ConstructRaw *)
    destruct Hexec as [_ ->]; simpl. split; [|done].
    apply owners_ok_adopt; [done|].
    intros l Hl. destruct (caller_owns_spec _ _ l Hpre Hl) as [Hv Hn].
    split; [done|]. intros h' _. apply Hn.
  - (* ConstructInPlace *)
    destruct (construct args (heap s)) as [v| |]; [|by subst|done].
    destruct Hexec as [_ ->]; simpl. split.
    + apply owners_ok_adopt.
      * apply owners_ok_alloc; [done|apply lookup_fresh].
      * intros l [= <-]. split.
        -- rewrite lookup_insert_eq. eauto.
        -- intros h' _. by apply fresh_not_held.
    + apply count_ok_new; [done|apply lookup_fresh].
  - (* ConstructMove *)
    destruct Hexec as (p & Hother & Hh & ->); simpl. split; [|done].
    rewrite <- (insert_insert_eq (objs s) h (mkPointer p) (mkPointer nullptr)).
    apply (owners_ok_swap _ _ h other nullptr p).
    + by apply owners_ok_set_null.
    + by rewrite lookup_insert_eq.
    + rewrite lookup_insert_ne; [done|congruence].
  - (* Assign *)
    destruct Hexec as (pd & ps & Hh & Hother & ->); simpl. split; [|done].
    by apply owners_ok_swap.
  - (* Reset *)
    destruct Hexec as (p0 & Hh & ->); simpl. split.
    + rewrite <- (insert_insert_eq (objs s) h (mkPointer p) (mkPointer nullptr)).
      apply owners_ok_adopt.
      * apply (owners_ok_delete_owned _ (objs s) _ h p0); try done.
        -- by apply owners_ok_set_null.
        -- intros h' Hne. by rewrite lookup_insert_ne.
        -- intros l. by rewrite lookup_insert_eq.
      * intros l Hl. destruct (caller_owns_spec _ _ l Hpre Hl) as [Hv Hn].
        split.
        -- rewrite lookup_freed. case_decide as Hd; [|done].
           subst p0. by destruct (Hn h).
        -- intros h' Hne. rewrite lookup_insert_ne by done. apply Hn.
    + apply count_ok_delete; [done|]. intros l ->. by apply (proj1 Ho h).
  - (* Emplace *)
    destruct Hexec as (p0 & Hh & Hexec).
    destruct (construct args (freed p0 (heap s))) as [v| |] eqn:Hv;
      [| |done].
    2: { (* the construction exits by an exception: the handle was empty *)
      rewrite Hh in Hpre. destruct p0 as [|l0].
      - subst s'. simpl. by rewrite app_nil_r.
      - by rewrite (emplace_exception_path _ _ _ _ Hh Hv) in Hpre. }
    subst s'; simpl.
    assert (owners_ok (freed p0 (heap s)) (<[h:=mkPointer nullptr]> (objs s)))
      as Ho'.
    { apply (owners_ok_delete_owned _ (objs s) _ h p0); try done.
      - by apply owners_ok_set_null.
      - intros h' Hne. by rewrite lookup_insert_ne.
      - intros l. by rewrite lookup_insert_eq. }
    split.
    + rewrite <- (insert_insert_eq (objs s) h (mkPointer (addr _))
                    (mkPointer nullptr)).
      apply owners_ok_adopt.
      * apply owners_ok_alloc; [done|apply lookup_fresh].
      * intros l [= <-]. split.
        -- rewrite lookup_insert_eq. eauto.
        -- intros h' _. by apply fresh_not_held.
    + apply count_ok_new; [|apply lookup_fresh].
      apply count_ok_delete; [done|]. intros l ->. by apply (proj1 Ho h).
  - (* Release *)
    destruct Hexec as (p0 & Hh & ->); simpl. split.
    + by apply owners_ok_set_null.
    + by apply count_ok_release_events.
  - (* Destroy *)
    destruct Hexec as (p0 & Hh & ->); simpl. split.
    + apply (owners_ok_delete_owned _ (objs s) _ h p0); try done.
      * by apply owners_ok_end.
      * intros h' Hne. by rewrite lookup_delete_ne.
      * intros l. by rewrite lookup_delete_eq.
    + apply count_ok_delete; [done|]. intros l ->. by apply (proj1 Ho h).
Qed.

(** A call on a handle either leaves an owned object owned, or deletes
    it, or hands it out through [release()]. *)
Lemma exec_keeps_or_frees o s s' l :
  exec construct o s = Ok tt s' → owned s l →
  owned s' l ∨ heap s' !! l = Some Freed ∨ EvRelease l ∈ trace s'.
Proof.
  intros Hexec [h0 Hh0]. apply exec_post in Hexec. unfold owned.
  destruct o; simpl in Hexec.
  - destruct (construct args (heap s)) as [v| |]; [| |done];
      subst s'; left; by exists h0.
  - destruct Hexec as [Hh ->]. left. exists h0. simpl.
    rewrite lookup_insert_ne; [done|congruence].
  - destruct Hexec as [Hh ->]. left. exists h0. simpl.
    rewrite lookup_insert_ne; [done|congruence].
  - destruct (construct args (heap s)) as [v| |]; [| |done].
    + destruct Hexec as [Hh ->]. left. exists h0. simpl.
      rewrite lookup_insert_ne; [done|congruence].
    + subst s'. left. by exists h0.
  - destruct Hexec as (p & Hother & Hh & ->). left. simpl.
    destruct (decide (h0 = other)) as [->|Hne].
    + exists h. rewrite lookup_insert_ne, lookup_insert_eq; congruence.
    + exists h0. rewrite !lookup_insert_ne; congruence.
  - destruct Hexec as (pd & ps & Hh & Hother & ->). left. simpl.
    destruct (decide (h0 = h)) as [->|Hne].
    + exists other. rewrite lookup_insert_eq. congruence.
    + destruct (decide (h0 = other)) as [->|Hne'].
      * exists h. rewrite lookup_insert_ne, lookup_insert_eq; congruence.
      * exists h0. rewrite !lookup_insert_ne; congruence.
  - destruct Hexec as (p0 & Hh & ->). simpl.
    destruct (decide (h0 = h)) as [->|Hne].
    + right. left. rewrite lookup_freed. case_decide; congruence.
    + left. exists h0. simpl. by rewrite lookup_insert_ne.
  - destruct Hexec as (p0 & Hh & Hexec).
    destruct (construct args (freed p0 (heap s))) as [v| |]; [| |done];
      subst s'; simpl; [|left; by exists h0].
    destruct (decide (h0 = h)) as [->|Hne].
    + right. left. assert (p0 = addr l) as -> by congruence.
      rewrite lookup_insert_ne.
      * by rewrite lookup_freed, decide_True.
      * intros Heq. pose proof (lookup_fresh (freed (addr l) (heap s))) as Hf.
        rewrite Heq, lookup_freed, decide_True in Hf; done.
    + left. exists h0. simpl. by rewrite lookup_insert_ne.
  - destruct Hexec as (p0 & Hh & ->). simpl.
    destruct (decide (h0 = h)) as [->|Hne].
    + right. right. assert (p0 = addr l) as -> by congruence.
      simpl. set_solver.
    + left. exists h0. simpl. by rewrite lookup_insert_ne.
  - destruct Hexec as (p0 & Hh & ->). simpl.
    destruct (decide (h0 = h)) as [->|Hne].
    + right. left. rewrite lookup_freed. case_decide; congruence.
    + left. exists h0. simpl. by rewrite lookup_delete_ne.
Qed.

(** *** Whole programs *)

Lemma run_cons o os s :
  run construct (o :: os) s =
  match exec construct o s with
  | Ok _ s' => run construct os s'
  | Throw s' => Throw s'
  | Abort message => Abort message
  | Undefined => Undefined
  end.
Proof. done. Qed.

Lemma legal_cons o os s :
  legal construct (o :: os) s = true →
  pre construct o s = true ∧
  ∃ s', exec construct o s = Ok tt s' ∧ legal construct os s' = true.
Proof.
  simpl. intros [Hpre Hrest]%andb_true_iff. split; [done|].
  destruct (exec construct o s) as [[] s'| | |]; try done. eauto.
Qed.

Lemma legal_run_app os1 os2 s :
  legal construct (os1 ++ os2) s = true →
  ∃ s1, run construct os1 s = Ok tt s1 ∧
    legal construct os1 s = true ∧ legal construct os2 s1 = true.
Proof.
  revert s. induction os1 as [|o os1 IH]; intros s Hlegal.
  - exists s. done.
  - change ((o :: os1) ++ os2) with (o :: (os1 ++ os2)) in Hlegal.
    apply legal_cons in Hlegal as (Hpre & s' & Hexec & Hrest).
    destruct (IH s' Hrest) as (s1 & Hrun & Hl1 & Hl2).
    exists s1. rewrite run_cons, Hexec. repeat split; try done.
    simpl. by rewrite Hpre, Hexec.
Qed.

Lemma legal_runs os s :
  legal construct os s = true → ∃ s', run construct os s = Ok tt s'.
Proof.
  intros Hlegal. rewrite <- (app_nil_r os) in Hlegal.
  destruct (legal_run_app _ _ _ Hlegal) as (s1 & Hrun & _). eauto.
Qed.

Lemma run_preserves_inv os s s' :
  ownership_inv s → legal construct os s = true →
  run construct os s = Ok tt s' → ownership_inv s'.
Proof.
  revert s. induction os as [|o os IH]; intros s Hinv Hlegal Hrun.
  - by injection Hrun as <-.
  - apply legal_cons in Hlegal as (Hpre & s1 & Hexec & Hrest).
    rewrite run_cons, Hexec in Hrun.
    apply (IH s1); [|done..]. by apply (exec_preserves_inv o s).
Qed.





End Ownership.

(** ** The properties at work on [Pointer<int>] *)

Lemma init_ownership_inv (T : Type) : ownership_inv (init T).
Proof.
  split; simpl.
  - intros h l Hh. by rewrite lookup_empty in Hh.
  - intros h1 h2 l Hh. by rewrite lookup_empty in Hh.
  - intros l. by rewrite lookup_empty.
Qed.



(** [Pointer<int> b{std::move(a)};] with [a] holding 42. *)
Lemma move_construct_transfers_witness :
  objs one_owner !! 0 = Some (mkPointer (addr 1)) ∧
  objs one_owner !! 1 = None ∧
  ∃ s', Pointer_move 1 0 one_owner = Ok tt s' ∧
    objs s' !! 1 = Some (mkPointer (addr 1)) ∧
    objs s' !! 0 = Some (mkPointer nullptr) ∧
    (∀ h, h ≠ 0 → h ≠ 1 → objs s' !! h = objs one_owner !! h) ∧
    heap s' = heap one_owner ∧ trace s' = trace one_owner ∧
    ∃ s'', Pointer_dtor 0 s' = Ok tt s'' ∧
      objs s'' !! 1 = Some (mkPointer (addr 1)) ∧
      objs s'' !! 0 = None ∧
      heap s'' = heap one_owner ∧ trace s'' = trace one_owner.
Proof.
  split; [reflexivity|]. split; [reflexivity|].
  apply (move_construct_transfers one_owner 0 1 (addr 1)); reflexivity.
Defined.

(** [a = std::move(b);] with [a] holding 42 and [b] holding 7. *)
Lemma move_assign_swaps_witness :
  objs two_owners !! 0 = Some (mkPointer (addr 1)) ∧
  objs two_owners !! 1 = Some (mkPointer (addr 2)) ∧
  ∃ s', op_assign 0 1 two_owners = Ok 0 s' ∧
    objs s' !! 0 = Some (mkPointer (addr 2)) ∧
    objs s' !! 1 = Some (mkPointer (addr 1)) ∧
    (∀ h, h ≠ 0 → h ≠ 1 → objs s' !! h = objs two_owners !! h) ∧
    heap s' = heap two_owners ∧ trace s' = trace two_owners ∧
    ∃ s'', Pointer_dtor 1 s' = Ok tt s'' ∧
      trace s'' = trace two_owners ++ delete_events (addr 1) ∧
      objs s'' !! 1 = None ∧
      (∀ l, addr 1 = addr l → heap s'' !! l = Some Freed) ∧
      (∀ l, addr 1 ≠ addr l → heap s'' !! l = heap two_owners !! l).
Proof.
  split; [reflexivity|]. split; [reflexivity|].
  apply (move_assign_swaps two_owners 0 1 (addr 1) (addr 2)); reflexivity.
Defined.

(** [a = std::move(a);] with [a] holding 42. *)
Lemma self_move_assign_noop_witness :
  objs one_owner !! 0 = Some (mkPointer (addr 1)) ∧
  op_assign 0 0 one_owner = Ok 0 one_owner.
Proof.
  split; [reflexivity|].
  apply (self_move_assign_noop one_owner 0 (addr 1)); reflexivity.
Defined.

(** [Pointer<int> a;] in a program that has not done anything yet. *)
Lemma default_constructed_is_empty_witness :
  objs (init Z) !! 0 = None ∧
  ∃ s', Pointer_null 0 (init Z) = Ok tt s' ∧
    objs s' !! 0 = Some (mkPointer nullptr) ∧
    heap s' = heap (init Z) ∧ trace s' = trace (init Z) ∧
    get 0 s' = Ok nullptr s' ∧
    release 0 s' = Ok nullptr s' ∧
    op_eq 0 s' = Ok true s' ∧
    nullptr_eq 0 s' = Ok true s' ∧
    op_ne 0 s' = Ok false s' ∧
    op_bool 0 s' = Ok false s'.
Proof.
  split; [reflexivity|].
  apply (default_constructed_is_empty (init Z) 0); reflexivity.
Defined.

(** The observers on a [Pointer<int>] holding 42. *)
Lemma emptiness_observers_coherent_witness :
  objs one_owner !! 0 = Some (mkPointer (addr 1)) ∧
  op_eq 0 one_owner = Ok (bool_decide (addr 1 = nullptr)) one_owner ∧
  op_ne 0 one_owner = Ok (negb (bool_decide (addr 1 = nullptr))) one_owner ∧
  op_bool 0 one_owner = Ok (negb (bool_decide (addr 1 = nullptr))) one_owner ∧
  nullptr_eq 0 one_owner = op_eq 0 one_owner ∧
  nullptr_ne 0 one_owner = op_ne 0 one_owner.
Proof.
  split; [reflexivity|].
  apply (emptiness_observers_coherent one_owner 0 (addr 1)); reflexivity.
Defined.

(** C5 as stated fails: resetting a handle to the pointer it already
    holds deletes that object, and the handle is left holding a pointer
    to a dead object. *)
Lemma reset_to_own_referent_invalidates :
  objs one_owner !! 0 = Some (mkPointer (addr 1)) ∧
  read 1 one_owner = Some 42%Z ∧
  reset 0 (addr 1) one_owner =
    Ok tt (mkState {[1%positive := Freed]} {[0 := mkPointer (addr 1)]}
             [EvNew 1%positive; EvDelete 1%positive]) ∧
  read 1 (mkState {[1%positive := Freed]} {[0 := mkPointer (addr 1)]}
            [EvNew 1%positive; EvDelete 1%positive] : state Z) = None.
Proof. repeat split; vm_compute; reflexivity. Qed.

(** [a.reset(p);] with [a] holding 42 and [p] the client's own 7. *)
Lemma reset_replaces_witness :
  objs owner_and_raw !! 0 = Some (mkPointer (addr 1)) ∧
  ∃ s', reset 0 (addr 2) owner_and_raw = Ok tt s' ∧
    trace s' = trace owner_and_raw ++ delete_events (addr 1) ∧
    objs s' = <[0 := mkPointer (addr 2)]> (objs owner_and_raw) ∧
    (∀ l, addr 1 = addr l → heap s' !! l = Some Freed) ∧
    (∀ l, addr 1 ≠ addr l → heap s' !! l = heap owner_and_raw !! l) ∧
    (∀ l, addr 2 = addr l → addr 2 ≠ addr 1 →
       heap s' !! l = heap owner_and_raw !! l).
Proof.
  split; [reflexivity|].
  apply (reset_replaces owner_and_raw 0 (addr 1) (addr 2)); reflexivity.
Defined.

(** C6 as stated fails.  With [a] holding 42, [a.emplace(-1)] exits by
    the exception of the constructor after the 42 was deleted, and [a]
    still holds the address of the deleted object; and [emplace] given
    [*a] as its argument has the copy constructor read the object that
    [emplace] has just deleted. *)
Lemma emplace_after_delete_fails :
  objs one_owner !! 0 = Some (mkPointer (addr 1)) ∧
  emplace construct_natural 0 (FromInt (-1)) one_owner =
    Throw (mkState {[1%positive := Freed]} {[0 := mkPointer (addr 1)]}
             [EvNew 1%positive; EvDelete 1%positive]) ∧
  read 1 (mkState {[1%positive := Freed]} {[0 := mkPointer (addr 1)]}
            [EvNew 1%positive; EvDelete 1%positive] : state Z) = None ∧
  construct_natural (CopyOf 1) (heap one_owner) = Constructed 42%Z ∧
  emplace construct_natural 0 (CopyOf 1) one_owner = Undefined.
Proof. repeat split; vm_compute; reflexivity. Qed.

(** [a.emplace(7);] with [a] holding 42. *)
Lemma emplace_replaces_witness :
  objs one_owner !! 0 = Some (mkPointer (addr 1)) ∧
  construct_natural (FromInt 7) (freed (addr 1) (heap one_owner)) =
    Constructed 7%Z ∧
  ∃ l s', emplace construct_natural 0 (FromInt 7) one_owner = Ok l s' ∧
    trace s' = trace one_owner ++ delete_events (addr 1) ++ [EvNew l] ∧
    heap one_owner !! l = None ∧
    objs s' = <[0 := mkPointer (addr l)]> (objs one_owner) ∧
    read l s' = Some 7%Z ∧
    op_star Checked 0 s' = Ok l s' ∧
    (∀ l', op_star Checked 0 s' = Ok l' s' → read l' s' = read l s') ∧
    (∀ l0, addr 1 = addr l0 → heap s' !! l0 = Some Freed) ∧
    (∀ l', addr 1 ≠ addr l' → l' ≠ l → heap s' !! l' = heap one_owner !! l').
Proof.
  split; [reflexivity|]. split; [reflexivity|].
  apply (emplace_replaces construct_natural Checked one_owner 0 (addr 1)
           (FromInt 7) 7%Z); reflexivity.
Defined.

(** [a.operator->()] and [*a] with [a] holding 42, in a checked build. *)
Lemma dereference_checked_witness :
  objs one_owner !! 0 = Some (mkPointer (addr 1)) ∧
  (∀ l, addr 1 = addr l →
     op_arrow Checked 0 one_owner = Ok (addr l) one_owner ∧
     op_star Checked 0 one_owner = Ok l one_owner) ∧
  (addr 1 = nullptr →
     op_arrow (T:=Z) Checked 0 one_owner = Abort "Containers::Pointer: the pointer is null" ∧
     op_star (T:=Z) Checked 0 one_owner = Abort "Containers::Pointer: the pointer is null") ∧
  (∀ message, op_arrow Checked 0 one_owner = Abort message ∨
              op_star Checked 0 one_owner = Abort message →
     addr 1 = nullptr ∧ Checked = Checked ∧
     message = "Containers::Pointer: the pointer is null"%string).
Proof.
  split; [reflexivity|].
  apply (dereference_checked Checked one_owner 0 (addr 1)); reflexivity.
Defined.

(** [pointer(p)] for [int], which is not constructible from [int*]. *)
Lemma pointer_helper_is_raw_constructor_witness :
  false = false ∧
  ∃ m : M Z unit, pointer false 0 (addr 1) = Accepted m ∧
    ∀ s, m s = Pointer_raw 0 (addr 1) s ∧
      (objs s !! 0 = None →
         m s = Ok tt (mkState (heap s) (<[0 := mkPointer (addr 1)]> (objs s))
                        (trace s))).
Proof.
  split; [reflexivity|].
  apply (pointer_helper_is_raw_constructor false 0 (addr 1)); reflexivity.
Defined.

(** A usual life of a handle: construct in place, move, reset to a new
    object, move-assign into an empty handle. *)
Example scenario_runs :
  run construct_int scenario (init Z) =
    Ok tt (mkState (<[2%positive := Live 7%Z]> {[1%positive := Freed]})
             (<[2 := mkPointer (addr 2)]>
                (<[1 := mkPointer nullptr]> {[0 := mkPointer nullptr]}))
             [EvNew 1%positive; EvNew 2%positive; EvDelete 1%positive]).
Proof. vm_compute. reflexivity. Qed.

Example scenario_cleans_up :
  run construct_int (scenario ++ scenario_end) (init Z) =
    Ok tt (mkState (<[2%positive := Freed]> {[1%positive := Freed]}) ∅
             [EvNew 1%positive; EvNew 2%positive; EvDelete 1%positive;
              EvDelete 2%positive]).
Proof. vm_compute. reflexivity. Qed.

(** None of the faulty programs meets the caller's precondition. *)
Example faulty_programs_are_illegal :
  legal construct_int adopt_twice (init Z) = false ∧
  legal construct_int reset_to_self (init Z) = false ∧
  legal construct_natural failing_emplace (init Z) = false.
Proof. repeat split; vm_compute; reflexivity. Qed.

(** An [emplace] that exits by an exception on an empty handle does no
    harm, and the program is legal. *)
Example emplace_throws_on_empty :
  legal construct_natural
    [ConstructNull 0; Emplace 0 (FromInt (-1)); Destroy 0] (init Z) = true ∧
  run construct_natural
    [ConstructNull 0; Emplace 0 (FromInt (-1)); Destroy 0] (init Z) =
    Ok tt (init Z).
Proof. split; vm_compute; reflexivity. Qed.

(** Dereferencing an empty [Pointer<int>]: a checked build halts; an
    unchecked build returns the null pointer from [operator->] and has no
    defined behaviour for [operator*]. *)
Example dereference_empty :
  op_arrow (T:=Z) Checked 0 (mkState ∅ {[0 := mkPointer nullptr]} []) =
    Abort "Containers::Pointer: the pointer is null" ∧
  op_star (T:=Z) Checked 0 (mkState ∅ {[0 := mkPointer nullptr]} []) =
    Abort "Containers::Pointer: the pointer is null" ∧
  op_arrow (T:=Z) Unchecked 0 (mkState ∅ {[0 := mkPointer nullptr]} []) =
    Ok nullptr (mkState ∅ {[0 := mkPointer nullptr]} []) ∧
  op_star (T:=Z) Unchecked 0 (mkState ∅ {[0 := mkPointer nullptr]} []) =
    Undefined.
Proof. repeat split. Qed.

(** For a [T] constructible from [T*] the helper does not compile. *)
Example pointer_helper_rejected :
  pointer (T:=Z) true 0 (addr 1) =
    Rejected "the type is constructible from its own pointer, which is ambiguous -- explicitly use the constructor instead".
Proof. reflexivity. Qed.

(** ** How the member functions compose *)

Ltac run_members :=
  unfold Pointer_null, Pointer_raw, Pointer_inplace, Pointer_move, op_assign,
    op_eq, op_ne, Pointer_dtor, op_bool, get, op_arrow, op_star, reset,
    emplace, release, swap, CORRADE_ASSERT, deref;
  unfold mbind, M_bind, mret, M_ret, load, store, create, destroy, cpp_new;
  repeat first
    [ progress cbn beta iota delta [objs heap trace _pointer]
    | rewrite cpp_delete_eq
    | rewrite lookup_insert_eq
    | rewrite lookup_delete_eq
    | rewrite lookup_insert_ne by (done || congruence)
    | match goal with
      | H : lookup _ (objs ?s) = _ |- _ => rewrite H
      end ].

Section Composition.
Context {T Args : Type}.
Variable construct : Args → gmap positive (cell T) → construction T.
Variable mode : build.
Implicit Types (s : state T) (h a b tmp : nat) (p q : ptr) (l : positive).

(** [release()] returns the stored pointer and empties the handle without
    a call to the allocator; when the handle is destroyed afterwards,
    nothing is deleted: the free store and the log are still those from
    before the release. *)
Theorem release_hands_over s h p :
  objs s !! h = Some (mkPointer p) →
  release h s =
    Ok p (mkState (heap s) (<[h := mkPointer nullptr]> (objs s)) (trace s)) ∧
  (release h;; Pointer_dtor h) s =
    Ok tt (mkState (heap s) (delete h (objs s)) (trace s)).
Proof.
  intros H.
  assert (release h s =
    Ok p (mkState (heap s) (<[h := mkPointer nullptr]> (objs s)) (trace s)))
    as Hrel.
  { unfold release, mbind, M_bind, mret, M_ret, load, store.
    rewrite H. simpl. by rewrite H. }
  split; [done|].
  unfold mbind at 1. unfold M_bind at 1. rewrite Hrel.
  unfold Pointer_dtor, mbind, M_bind, load, destroy. simpl.
  rewrite lookup_insert_eq. simpl. rewrite lookup_insert_eq.
  by rewrite delete_insert_eq.
Qed.

(** [Pointer<T> b{a.release()};] is [Pointer<T> b{std::move(a)};]. *)
Theorem release_then_adopt_is_move s a b p :
  objs s !! a = Some (mkPointer p) →
  objs s !! b = None →
  (q ← release a; Pointer_raw b q) s = Pointer_move b a s.
Proof.
  intros Ha Hb. assert (a ≠ b) as Hne by congruence.
  unfold release, Pointer_raw, Pointer_move, mbind, M_bind, mret, M_ret,
    load, store, create.
  rewrite Ha. simpl. rewrite Ha, Hb. simpl.
  rewrite !lookup_insert_ne by done. rewrite Ha, Hb.
  by rewrite insert_insert_ne.
Qed.

(** On an empty handle, adopting a pointer with [reset] and taking it
    out again with [release()] gives the pointer back and leaves the
    program state exactly as it was. *)
Theorem reset_release_roundtrip s h p :
  objs s !! h = Some (mkPointer nullptr) →
  (reset h p;; release h) s = Ok p s.
Proof.
  intros H.
  unfold reset, release, mbind, M_bind, mret, M_ret, load, store, cpp_delete.
  rewrite H. simpl. unfold mret, M_ret. rewrite H. simpl.
  rewrite lookup_insert_eq. simpl. rewrite lookup_insert_eq.
  rewrite insert_insert_eq, insert_id by done.
  by rewrite state_eta.
Qed.
(** In-place construction, when the constructor returns a value,
    allocates exactly one object, at an address the free store never
    handed out, holding that value; the new handle holds it, converts to
    [true] and dereferences to that value.  When the constructor exits by
    an exception, so does the construction of the handle: nothing is
    allocated and no handle begins to exist. *)
Theorem inplace_constructs s h args :
  objs s !! h = None →
  match construct args (heap s) with
  | Constructed v =>
      ∃ l s', Pointer_inplace construct h args s = Ok tt s' ∧
        heap s !! l = None ∧
        heap s' = <[l := Live v]> (heap s) ∧
        objs s' = <[h := mkPointer (addr l)]> (objs s) ∧
        trace s' = trace s ++ [EvNew l] ∧
        op_bool h s' = Ok true s' ∧
        op_star mode h s' = Ok l s' ∧
        read l s' = Some v
  | Throws => Pointer_inplace construct h args s = Throw s
  | ReadsDead => Pointer_inplace construct h args s = Undefined
  end.
Proof.
  intros H.
  destruct (construct args (heap s)) as [v| |] eqn:Hv;
    [|unfold Pointer_inplace, mbind, M_bind, new_T; by rewrite Hv..].
  exists (fresh (dom (heap s))). eexists. split.
  { unfold Pointer_inplace, mbind, M_bind, new_T, cpp_new, create.
    rewrite Hv. simpl. rewrite H. reflexivity. }
  simpl. split; [apply lookup_fresh|]. do 3 (split; [done|]).
  split; [|split].
  - unfold op_bool, mbind, M_bind, mret, M_ret, load. simpl.
    by rewrite lookup_insert_eq.
  - unfold op_star, CORRADE_ASSERT, deref, mbind, M_bind, mret, M_ret, load.
    simpl. rewrite lookup_insert_eq. simpl. by destruct mode.
  - unfold read. simpl. by rewrite lookup_insert_eq.
Qed.


(** Move assignment is an involution: done twice on the same two
    handles it restores the program state, and the order of the two
    operands does not matter for the state it leaves. *)
Theorem move_assign_twice_restores s a b pa pb :
  objs s !! a = Some (mkPointer pa) →
  objs s !! b = Some (mkPointer pb) →
  (op_assign a b;; op_assign a b) s = Ok a s ∧
  ∃ s', op_assign a b s = Ok a s' ∧ op_assign b a s = Ok b s'.
Proof.
  intros Ha Hb.
  assert (∀ x y px py (m : gmap nat Pointer),
    m !! x = Some (mkPointer px) → m !! y = Some (mkPointer py) →
    ∀ hp tr, op_assign x y (mkState (T:=T) hp m tr) =
      Ok x (mkState hp (<[y := mkPointer px]> (<[x := mkPointer py]> m)) tr))
    as Hswap.
  { intros x y px py m Hx Hy hp tr.
    unfold op_assign, swap, mbind, M_bind, mret, M_ret, load, store. simpl.
    rewrite Hx. simpl. rewrite Hy. simpl. rewrite Hx. simpl.
    rewrite lookup_insert. case_decide; [done|]. by rewrite Hy. }
  destruct s as [hp m tr]. simpl in Ha, Hb.
  pose proof (Hswap a b pa pb m Ha Hb hp tr) as H1.
  pose proof (Hswap b a pb pa m Hb Ha hp tr) as H2.
  split.
  - unfold mbind at 1. unfold M_bind at 1. rewrite H1.
    rewrite (Hswap a b pb pa).
    + f_equal. f_equal.
      apply map_eq. intros i. rewrite !lookup_insert.
      repeat case_decide; congruence.
    + rewrite lookup_insert. case_decide; [congruence|].
      by rewrite lookup_insert_eq.
    + by rewrite lookup_insert_eq.
  - eexists. split; [exact H1|]. rewrite H2. f_equal. f_equal.
    apply map_eq. intros i. rewrite !lookup_insert.
    repeat case_decide; congruence.
Qed.

(** [Pointer<T> b; b = std::move(a);] is [Pointer<T> b{std::move(a)};]. *)
Theorem default_then_assign_is_move s a b pa :
  objs s !! a = Some (mkPointer pa) →
  objs s !! b = None →
  (Pointer_null b;; op_assign b a;; mret tt) s = Pointer_move b a s.
Proof.
  intros Ha Hb. assert (b ≠ a) as Hne by congruence.
  run_members. by rewrite insert_insert_eq.
Qed.


(** Emptying a handle with [reset(nullptr)] just before it is destroyed
    changes nothing: the held object is deleted once, by the reset, and
    the destructor then deletes nothing. *)
Theorem reset_null_then_destroy s h p :
  objs s !! h = Some (mkPointer p) →
  (reset h nullptr;; Pointer_dtor h) s = Pointer_dtor h s.
Proof.
  intros H. run_members. simpl.
  by rewrite app_nil_r, delete_insert_eq.
Qed.

(** Into an empty destination, [b.reset(a.release());] is
    [b = std::move(a);]. *)
Theorem release_reset_is_assign s a b pa :
  objs s !! a = Some (mkPointer pa) →
  objs s !! b = Some (mkPointer nullptr) →
  (q ← release a; reset b q) s = (op_assign b a;; mret tt) s.
Proof.
  intros Ha Hb. destruct (decide (a = b)) as [->|Hne].
  - assert (pa = nullptr) as -> by congruence.
    run_members. simpl. by rewrite app_nil_r.
  - run_members. simpl. rewrite app_nil_r.
    by rewrite insert_insert_ne.
Qed.
(** When the construction exits by an exception, [h.emplace(args...)]
    and [h.reset(new T{args...})] part ways.  The second never reaches
    [reset]: the program state is what it was.  The first has deleted the
    held object by then, and the handle goes on holding its address: it
    converts to [true], [get()] returns the dead address, and the
    destructor that runs afterwards deletes the object a second time. *)
Theorem emplace_throw_leaves_dangling s h l args :
  objs s !! h = Some (mkPointer (addr l)) →
  construct args (heap s) = Throws →
  construct args (<[l := Freed]> (heap s)) = Throws →
  (q ← new_T construct args; reset h q) s = Throw s ∧
  ∃ s', emplace construct h args s = Throw s' ∧
    heap s' !! l = Some Freed ∧
    trace s' = trace s ++ [EvDelete l] ∧
    get h s' = Ok (addr l) s' ∧
    op_bool h s' = Ok true s' ∧
    ∃ s'', Pointer_dtor h s' = Ok tt s'' ∧
      trace s'' = trace s ++ [EvDelete l; EvDelete l].
Proof.
  intros H Hc Hc'. split.
  { unfold mbind, M_bind, new_T. by rewrite Hc. }
  eexists. split; [by apply (emplace_exception_path construct s h (addr l))|].
  simpl. rewrite lookup_insert_eq. do 2 (split; [done|]).
  split; [|split].
  - unfold get, load. simpl. by rewrite H.
  - unfold op_bool, mbind, M_bind, mret, M_ret, load. simpl. by rewrite H.
  - eexists. split.
    { unfold Pointer_dtor, mbind, M_bind, load, destroy, cpp_delete. simpl.
      rewrite H. simpl. rewrite H. reflexivity. }
    simpl. by rewrite <- app_assoc.
Qed.

(** Whenever a dereference returns, in any build, it has left the
    program state alone and returned what [get()] returns; [operator*]
    returns only on a handle that converts to [true]. *)
Theorem dereference_agrees_with_get s h :
  (∀ q s', op_arrow mode h s = Ok q s' → s' = s ∧ get h s = Ok q s) ∧
  (∀ l s', op_star mode h s = Ok l s' →
     s' = s ∧ get h s = Ok (addr l) s ∧ op_bool h s = Ok true s).
Proof.
  unfold op_arrow, op_star, get, op_bool, CORRADE_ASSERT, deref, abort,
    undefined, mbind, M_bind, mret, M_ret, load.
  destruct (objs s !! h) as [[p]|]; simpl; [|done].
  split.
  - intros q s'. destruct mode, p; simpl; intros [= <- <-]; done.
  - intros l s'. destruct mode, p; simpl; intros [= <- <-]; done.
Qed.

(** In a legal program no handle ever dangles: once the program has run,
    every non-empty handle holds a living object, and dereferencing it
    returns that object in any build. *)
Theorem legal_programs_never_dangle s0 os :
  ownership_inv s0 →
  legal construct os s0 = true →
  ∃ s, run construct os s0 = Ok tt s ∧
    ∀ h l, objs s !! h = Some (mkPointer (addr l)) →
      op_arrow mode h s = Ok (addr l) s ∧
      op_star mode h s = Ok l s ∧
      ∃ v, read l s = Some v.
Proof.
  intros Hinv Hlegal.
  destruct (legal_runs construct _ _ Hlegal) as [s Hrun].
  pose proof (run_preserves_inv construct _ _ _ Hinv Hlegal Hrun) as Hinv'.
  exists s. split; [done|]. intros h l Hh.
  destruct (inv_live _ Hinv' h l Hh) as [v Hv].
  split; [|split].
  - run_members. by destruct mode.
  - run_members. by destruct mode.
  - exists v. unfold read. by rewrite Hv.
Qed.

Lemma no_release_new l l' tr :
  EvRelease l ∉ tr → EvRelease l ∉ tr ++ [EvNew l'].
Proof.
  intros H. apply not_elem_of_app. split; [done|].
  rewrite list_elem_of_singleton. congruence.
Qed.

Lemma no_release_delete l p tr :
  EvRelease l ∉ tr → EvRelease l ∉ tr ++ delete_events p.
Proof.
  intros H. apply not_elem_of_app. split; [done|].
  destruct p; simpl; [apply not_elem_of_nil|].
  rewrite list_elem_of_singleton. congruence.
Qed.

(** A program that never takes a pointer out with [release()] and
    allocates only through its handles keeps every living object in
    some handle; so once all its handles are destroyed, nothing it
    allocated is left alive. *)
Theorem handles_only_no_leak s0 os s :
  (∀ l v, heap s0 !! l = Some (Live v) → owned s0 l) →
  (∀ l, EvRelease l ∉ trace s0) →
  forallb handles_only os = true →
  run construct os s0 = Ok tt s →
  (∀ l v, heap s !! l = Some (Live v) → owned s l) ∧
  (∀ l, EvRelease l ∉ trace s) ∧
  (objs s = ∅ → ∀ l v, heap s !! l ≠ Some (Live v)).
Proof.
  intros Hown Hrel Hall Hrun.
  assert ((∀ l v, heap s !! l = Some (Live v) → owned s l) ∧
          (∀ l, EvRelease l ∉ trace s)) as [Hown' Hrel'].
  { revert s0 Hown Hrel Hrun. induction os as [|o os IH];
      intros s0 Hown Hrel Hrun.
    - by injection Hrun as <-.
    - simpl in Hall. apply andb_true_iff in Hall as [Ho Hos].
      rewrite run_cons in Hrun.
      destruct (exec construct o s0) as [[] s1| | |] eqn:Hexec; try done.
      assert (∀ l, EvRelease l ∉ trace s1) as Hrel1.
      { intros l. pose proof (Hrel l) as Hl.
        pose proof (exec_post construct _ _ _ Hexec) as Hpost.
        destruct o; simpl in Hpost, Ho; try done.
        - by destruct Hpost as [_ ->].
        - by destruct Hpost as [_ ->].
        - destruct (construct args (heap s0)) as [v| |]; [| |done].
          + destruct Hpost as [_ ->]. by apply no_release_new.
          + by subst s1.
        - by destruct Hpost as (p & _ & _ & ->).
        - by destruct Hpost as (pd & ps & _ & _ & ->).
        - destruct Hpost as (p0 & _ & ->). by apply no_release_delete.
        - destruct Hpost as (p0 & _ & Hpost).
          destruct (construct args (freed p0 (heap s0))) as [v| |];
            [| |done]; subst s1.
          + by apply no_release_new, no_release_delete.
          + by apply no_release_delete.
        - destruct Hpost as (p0 & _ & ->). by apply no_release_delete. }
      apply (IH Hos s1); [|done..].
      intros l v Hl.
      assert (owned s1 l ∨ ∃ v', heap s0 !! l = Some (Live v'))
        as [Hdone|[v' Hv']].
      { pose proof (exec_post construct _ _ _ Hexec) as Hpost.
        destruct o; simpl in Hpost, Ho; try done.
        - destruct Hpost as [_ ->]. right. simpl in Hl. eauto.
        - destruct Hpost as [_ ->]. right. simpl in Hl. eauto.
        - destruct (construct args (heap s0)) as [v0| |]; [| |done].
          + destruct Hpost as [_ ->]. simpl in Hl.
            rewrite lookup_insert in Hl. case_decide as Hd.
            * left. exists h. simpl. subst l. by rewrite lookup_insert_eq.
            * right. eauto.
          + subst s1. right. eauto.
        - destruct Hpost as (p & _ & _ & ->). right. simpl in Hl. eauto.
        - destruct Hpost as (pd & ps & _ & _ & ->). right. simpl in Hl. eauto.
        - destruct Hpost as (p0 & _ & ->). right. simpl in Hl.
          rewrite lookup_freed in Hl. case_decide; [done|]. eauto.
        - destruct Hpost as (p0 & _ & Hpost).
          destruct (construct args (freed p0 (heap s0))) as [v0| |];
            [| |done]; subst s1; simpl in Hl.
          + rewrite lookup_insert in Hl. case_decide as Hd.
            * left. exists h. simpl. subst l. by rewrite lookup_insert_eq.
            * right. rewrite lookup_freed in Hl. case_decide; [done|]. eauto.
          + right. rewrite lookup_freed in Hl. case_decide; [done|]. eauto.
        - destruct Hpost as (p0 & _ & ->). right. simpl in Hl.
          rewrite lookup_freed in Hl. case_decide; [done|]. eauto. }
      + done.
      + destruct (exec_keeps_or_frees construct _ _ _ l Hexec
                    (Hown l v' Hv')) as [Hk|[Hf|Hr]].
        * done.
        * congruence.
        * by destruct (Hrel1 l). }
  do 2 (split; [done|]).
  intros Hempty l v Hl. destruct (Hown' l v Hl) as [h Hh].
  by rewrite Hempty, lookup_empty in Hh.
Qed.
End Composition.

(** ** The compositions at work on [Pointer<int>] *)

(** [int* p = a.release();] with [a] holding 42, then [a] goes out of
    scope. *)
Lemma release_hands_over_witness :
  objs one_owner !! 0 = Some (mkPointer (addr 1)) ∧
  release 0 one_owner =
    Ok (addr 1) (mkState (heap one_owner)
                   (<[0 := mkPointer nullptr]> (objs one_owner))
                   (trace one_owner)) ∧
  (release 0;; Pointer_dtor 0) one_owner =
    Ok tt (mkState (heap one_owner) (delete 0 (objs one_owner))
             (trace one_owner)).
Proof.
  split; [reflexivity|].
  apply (release_hands_over one_owner 0 (addr 1)); reflexivity.
Defined.

Lemma release_then_adopt_is_move_witness :
  objs one_owner !! 0 = Some (mkPointer (addr 1)) ∧
  objs one_owner !! 1 = None ∧
  (q ← release 0; Pointer_raw 1 q) one_owner = Pointer_move 1 0 one_owner.
Proof.
  split; [reflexivity|]. split; [reflexivity|].
  apply (release_then_adopt_is_move one_owner 0 1 (addr 1)); reflexivity.
Defined.

Lemma reset_release_roundtrip_witness :
  objs empty_and_raw !! 0 = Some (mkPointer nullptr) ∧
  (reset 0 (addr 1);; release 0) empty_and_raw = Ok (addr 1) empty_and_raw.
Proof.
  split; [reflexivity|].
  apply (reset_release_roundtrip empty_and_raw 0 (addr 1)); reflexivity.
Defined.

Lemma inplace_constructs_witness :
  objs one_owner !! 1 = None ∧
  (∃ l s', Pointer_inplace construct_natural 1 (FromInt 7) one_owner = Ok tt s' ∧
    heap one_owner !! l = None ∧
    heap s' = <[l := Live 7%Z]> (heap one_owner) ∧
    objs s' = <[1 := mkPointer (addr l)]> (objs one_owner) ∧
    trace s' = trace one_owner ++ [EvNew l] ∧
    op_bool 1 s' = Ok true s' ∧
    op_star Checked 1 s' = Ok l s' ∧
    read l s' = Some 7%Z) ∧
  Pointer_inplace construct_natural 1 (FromInt (-1)) one_owner =
    Throw one_owner.
Proof.
  split; [reflexivity|]. split.
  - apply (inplace_constructs construct_natural Checked one_owner 1
             (FromInt 7)); reflexivity.
  - apply (inplace_constructs construct_natural Checked one_owner 1
             (FromInt (-1))); reflexivity.
Defined.

Lemma move_assign_twice_restores_witness :
  objs two_owners !! 0 = Some (mkPointer (addr 1)) ∧
  objs two_owners !! 1 = Some (mkPointer (addr 2)) ∧
  (op_assign 0 1;; op_assign 0 1) two_owners = Ok 0 two_owners ∧
  ∃ s', op_assign 0 1 two_owners = Ok 0 s' ∧
        op_assign 1 0 two_owners = Ok 1 s'.
Proof.
  split; [reflexivity|]. split; [reflexivity|].
  apply (move_assign_twice_restores two_owners 0 1 (addr 1) (addr 2));
    reflexivity.
Defined.

Lemma default_then_assign_is_move_witness :
  objs one_owner !! 0 = Some (mkPointer (addr 1)) ∧
  objs one_owner !! 1 = None ∧
  (Pointer_null 1;; op_assign 1 0;; mret tt) one_owner =
    Pointer_move 1 0 one_owner.
Proof.
  split; [reflexivity|]. split; [reflexivity|].
  apply (default_then_assign_is_move one_owner 0 1 (addr 1)); reflexivity.
Defined.


Lemma reset_null_then_destroy_witness :
  objs one_owner !! 0 = Some (mkPointer (addr 1)) ∧
  (reset 0 nullptr;; Pointer_dtor 0) one_owner = Pointer_dtor 0 one_owner.
Proof.
  split; [reflexivity|].
  apply (reset_null_then_destroy one_owner 0 (addr 1)); reflexivity.
Defined.

Lemma release_reset_is_assign_witness :
  objs owner_and_empty !! 0 = Some (mkPointer (addr 1)) ∧
  objs owner_and_empty !! 1 = Some (mkPointer nullptr) ∧
  (q ← release 0; reset 1 q) owner_and_empty =
    (op_assign 1 0;; mret tt) owner_and_empty.
Proof.
  split; [reflexivity|]. split; [reflexivity|].
  apply (release_reset_is_assign owner_and_empty 0 1 (addr 1)); reflexivity.
Defined.

(** [a.emplace(-1);] against [a.reset(new Natural{-1});] with [a]
    holding 42. *)
Lemma emplace_throw_leaves_dangling_witness :
  objs one_owner !! 0 = Some (mkPointer (addr 1)) ∧
  construct_natural (FromInt (-1)) (heap one_owner) = Throws ∧
  construct_natural (FromInt (-1)) (<[1%positive := Freed]> (heap one_owner))
    = Throws ∧
  (q ← new_T construct_natural (FromInt (-1)); reset 0 q) one_owner =
    Throw one_owner ∧
  ∃ s', emplace construct_natural 0 (FromInt (-1)) one_owner = Throw s' ∧
    heap s' !! 1%positive = Some Freed ∧
    trace s' = trace one_owner ++ [EvDelete 1%positive] ∧
    get 0 s' = Ok (addr 1) s' ∧
    op_bool 0 s' = Ok true s' ∧
    ∃ s'', Pointer_dtor 0 s' = Ok tt s'' ∧
      trace s'' = trace one_owner ++ [EvDelete 1%positive; EvDelete 1%positive].
Proof.
  do 3 (split; [reflexivity|]).
  apply (emplace_throw_leaves_dangling construct_natural one_owner 0
           1%positive (FromInt (-1))); reflexivity.
Defined.

Lemma dereference_agrees_with_get_witness :
  op_arrow Unchecked 0 empty_and_raw = Ok nullptr empty_and_raw ∧
  get 0 empty_and_raw = Ok nullptr empty_and_raw ∧
  op_star Checked 0 one_owner = Ok 1%positive one_owner ∧
  get 0 one_owner = Ok (addr 1) one_owner ∧
  op_bool 0 one_owner = Ok true one_owner.
Proof.
  split; [reflexivity|]. split.
  { apply (proj1 (dereference_agrees_with_get Unchecked empty_and_raw 0)
             nullptr empty_and_raw). reflexivity. }
  split; [reflexivity|].
  apply (proj2 (dereference_agrees_with_get Checked one_owner 0)
           1%positive one_owner). reflexivity.
Defined.

Lemma legal_programs_never_dangle_witness :
  ownership_inv (init Z) ∧
  legal construct_int (scenario ++ [Emplace 2 5%Z]) (init Z) = true ∧
  ∃ s, run construct_int (scenario ++ [Emplace 2 5%Z]) (init Z) = Ok tt s ∧
    ∀ h l, objs s !! h = Some (mkPointer (addr l)) →
      op_arrow Unchecked h s = Ok (addr l) s ∧
      op_star Unchecked h s = Ok l s ∧
      ∃ v, read l s = Some v.
Proof.
  split; [apply init_ownership_inv|]. split; [vm_compute; reflexivity|].
  apply (legal_programs_never_dangle construct_int Unchecked (init Z)
           (scenario ++ [Emplace 2 5%Z])).
  - apply init_ownership_inv.
  - vm_compute; reflexivity.
Defined.

Lemma handles_only_no_leak_witness :
  forallb handles_only through_handles = true ∧
  run construct_int through_handles (init Z) =
    Ok tt (mkState (<[2%positive := Freed]> {[1%positive := Freed]}) ∅
             [EvNew 1%positive; EvDelete 1%positive; EvNew 2%positive;
              EvDelete 2%positive]) ∧
  ∀ l v, (<[2%positive := Freed]> {[1%positive := Freed]} : gmap positive (cell Z))
           !! l ≠ Some (Live v).
Proof.
  assert (run construct_int through_handles (init Z) =
    Ok tt (mkState (<[2%positive := Freed]> {[1%positive := Freed]}) ∅
             [EvNew 1%positive; EvDelete 1%positive; EvNew 2%positive;
              EvDelete 2%positive])) as Hrun by (vm_compute; reflexivity).
  split; [reflexivity|]. split; [exact Hrun|].
  refine (proj2 (proj2 (handles_only_no_leak construct_int (init Z)
            through_handles _ _ _ _ Hrun)) _).
  - intros l v. unfold init. cbn [heap]. by rewrite lookup_empty.
  - intros l. apply not_elem_of_nil.
  - reflexivity.
  - reflexivity.
Defined.
